(** * express-autotemplates: the project generator (src/generator.js)

    A shallow embedding of [validateProjectName] and [generateProject],
    of the part of Node's [path] and fs-extra's [fs] API they call, and of
    the five template modules' [generate] functions, followed by the
    properties of the generation workflow. *)

From Stdlib Require Import NArith String Ascii.
From stdpp Require Import gmap strings list fin_maps.

Local Open Scope N_scope.

(** ** JavaScript strings

    A JavaScript string is a sequence of UTF-16 code units; [length],
    [trim], [startsWith], the regular expression and [toLowerCase] all work
    on code units. *)

Abbreviation jsstring := (list N).

(** The code units of an ASCII literal of the source. *)
Definition js (s : string) : jsstring :=
  N_of_ascii <$> list_ascii_of_string s.

Module JsString.

(** WhiteSpace and LineTerminator code points of ECMAScript, the ones
    [String.prototype.trim] strips (all of them lie in the BMP). *)
Definition is_white_space (c : N) : bool :=
  (c =? 0x09) || (c =? 0x0A) || (c =? 0x0B) || (c =? 0x0C) || (c =? 0x0D)
  || (c =? 0x20) || (c =? 0xA0) || (c =? 0x1680)
  || ((0x2000 <=? c) && (c <=? 0x200A))
  || (c =? 0x2028) || (c =? 0x2029) || (c =? 0x202F) || (c =? 0x205F)
  || (c =? 0x3000) || (c =? 0xFEFF).

Fixpoint trimStart (s : jsstring) : jsstring :=
  match s with
  | c :: s' => if is_white_space c then trimStart s' else s
  | [] => []
  end.

Definition trimEnd (s : jsstring) : jsstring := reverse (trimStart (reverse s)).

Definition trim (s : jsstring) : jsstring := trimEnd (trimStart s).

(** [s.startsWith(c)] for a one-unit search string. *)
Definition startsWith (s : jsstring) (c : N) : bool :=
  match s with
  | c0 :: _ => c0 =? c
  | [] => false
  end.

(** [toLowerCase] on one code unit.  Only the ASCII letters are mapped;
    [validateProjectName] calls [toLowerCase] after the regular expression
    has accepted the name, that is on ASCII letters, digits, '-' and '_'
    alone (lemma [regex_test_ascii] below), where this is the full
    Unicode mapping. *)
Definition lower_unit (c : N) : N :=
  if (0x41 <=? c) && (c <=? 0x5A) then c + 0x20 else c.

Definition toLowerCase (s : jsstring) : jsstring := lower_unit <$> s.

(** [Array.prototype.includes] on an array of strings. *)
Definition includes (arr : list jsstring) (s : jsstring) : bool :=
  bool_decide (s ∈ arr).

End JsString.

(** ** The regular expression [/^[a-z0-9-_]+$/i] *)

Module Regex.

(** The character class [[a-z0-9-_]] as inclusive code unit ranges:
    a-z, 0-9, and the two literals '-' and '_'. *)
Definition class_ranges : list (N * N) :=
  [(0x61, 0x7A); (0x30, 0x39); (0x2D, 0x2D); (0x5F, 0x5F)].

Definition range_members (r : N * N) : list N :=
  (fun i => fst r + N.of_nat i) <$> seq 0 (N.to_nat (snd r - fst r) + 1).

Definition class_members : list N := class_ranges ≫= range_members.

(** Canonicalize of the [i] flag without the [u] flag: the upper case
    mapping, except that a unit of 128 or more is never mapped below
    128.  On ASCII that is a-z to A-Z.  The units of 128 and more are
    left as they are here: whatever their upper case is, the canonical
    unit stays at 128 or more, and no member of the class is. *)
Definition canonicalize (c : N) : N :=
  if (0x61 <=? c) && (c <=? 0x7A) then c - 0x20 else c.

(** One input unit matches the class when some member of the class has
    the same canonical unit. *)
Definition class_matches (c : N) : bool :=
  existsb (fun m => canonicalize m =? canonicalize c) class_members.

(** [^ class+ $] without the [m] flag: the whole input is one or more
    units of the class. *)
Definition test (s : jsstring) : bool :=
  match s with
  | [] => false
  | _ => forallb class_matches s
  end.

End Regex.

(** ** Errors

    Every error of the generator is [new Error(message)]; one constructor
    per message.  [TypeErrorNotAFunction] and [FsError] are the errors the
    JavaScript runtime and the file system raise. *)

Inductive errno := ENOENT | ENOTDIR | EISDIR | EEXIST | EACCES | ENOSPC | EBUSY | EIO.

Inductive error :=
| ErrEmptyName                                  (* 'Project name cannot be empty' *)
| ErrNameTooLong                                (* '... cannot be longer than 214 characters' *)
| ErrInvalidCharacters                          (* '... can only contain letters, numbers, hyphens, and underscores' *)
| ErrLeadingDotOrHyphen                         (* '... cannot start with a dot or hyphen' *)
| ErrReservedName (projectName : jsstring)      (* '"${projectName}" is a reserved name and cannot be used' *)
| ErrDirectoryExists (projectName : jsstring)   (* 'Directory "${projectName}" already exists' *)
| ErrTemplateNotFound (templateType : jsstring) (* 'Template "${templateType}" not found' *)
| TypeErrorNotAFunction                         (* template.generate is not a function *)
| FsError (code : errno).

(** The error taxonomy of the specification. *)
Inductive error_kind :=
| InvalidNameError | DirectoryExistsError | UnknownTemplateError
| JsTypeError | IoError.

Definition kind_of (e : error) : error_kind :=
  match e with
  | ErrEmptyName | ErrNameTooLong | ErrInvalidCharacters
  | ErrLeadingDotOrHyphen | ErrReservedName _ => InvalidNameError
  | ErrDirectoryExists _ => DirectoryExistsError
  | ErrTemplateNotFound _ => UnknownTemplateError
  | TypeErrorNotAFunction => JsTypeError
  | FsError _ => IoError
  end.

(** How a call ends: it returns a value or throws. *)
Inductive completion (A : Type) :=
| Returns (a : A)
| Throws (e : error).
Arguments Returns {A} a.
Arguments Throws {A} e.

(** ** validateProjectName *)

Definition reservedNames : list jsstring :=
  [js "node_modules"; js "favicon.ico"; js "package.json"; js "package-lock.json"].

Definition validateProjectName (projectName : jsstring) : completion unit :=
  if bool_decide (projectName = []) || (length (JsString.trim projectName) =? 0)%nat
  then Throws ErrEmptyName
  else if (214 <? length projectName)%nat
  then Throws ErrNameTooLong
  else if negb (Regex.test projectName)
  then Throws ErrInvalidCharacters
  else if JsString.startsWith projectName 0x2E || JsString.startsWith projectName 0x2D
  then Throws ErrLeadingDotOrHyphen
  else if JsString.includes reservedNames (JsString.toLowerCase projectName)
  then Throws (ErrReservedName projectName)
  else Returns tt.

(** ** Node's [path.join] (POSIX)

    A path is kept as the list of its segments below the root; the string
    form is the segments joined by '/'.  [process.cwd()] is an absolute
    normalized path, so it is such a list. *)

Abbreviation path := (list jsstring).

Module NodePath.

(** A joined path: its segments after normalization, and whether the
    string ends in a separator ([normalize] keeps a trailing '/'). *)
Record jpath := JPath { segments : path; trailing_slash : bool }.

Global Instance jpath_eq_dec : EqDecision jpath.
Proof. solve_decision. Defined.

(** [s.split('/')]: [cur] collects the units of the segment being read. *)
Fixpoint split_slash (cur : jsstring) (s : jsstring) : list jsstring :=
  match s with
  | [] => [cur]
  | c :: s' =>
      if c =? 0x2F then cur :: split_slash [] s'
      else split_slash (cur ++ [c]) s'
  end.

(** One step of [normalizeString]: an empty segment and "." are dropped,
    ".." removes the segment before it (at the root there is none to
    remove), any other segment is kept. *)
Definition normalize_step (acc : path) (seg : jsstring) : path :=
  if bool_decide (seg = []) then acc
  else if bool_decide (seg = [0x2E]) then acc
  else if bool_decide (seg = [0x2E; 0x2E]) then removelast acc
  else acc ++ [seg].

(** [path.join(base, arg)] for an absolute normalized [base]. *)
Definition join (base : path) (arg : jsstring) : jpath :=
  {| segments := foldl normalize_step base (split_slash [] arg);
     trailing_slash := match last arg with
                       | Some c => c =? 0x2F
                       | None => false
                       end |}.

End NodePath.
Import NodePath.

(** ** The file system, as fs-extra sees it *)

Inductive template_kind := basic | chatapp | ecom | blog | aichat.

(** What a template writes into a file.  The text of the boilerplate is
    static payload; a file's content is named by the template and the
    constant (or function of the project name) of the module it comes
    from. *)
Inductive payload :=
| PackageJson (t : template_kind) (projectName : jsstring) (* packageJson(projectName), 2 spaces *)
| ReadmeFile (t : template_kind) (projectName : jsstring)  (* readmeFile(projectName) *)
| Constant (t : template_kind) (ident : string)            (* a template literal bound to ident *)
| Literal (text : string)                                  (* a string literal at the call *)
| Other (id : nat).                                        (* a file that was there before *)

Inductive node :=
| Dir
| File (content : payload).

(** The directory tree: every path that exists, with what is there.  The
    root is the path [[]]. *)
Abbreviation tree := (gmap path node).

Module Tree.

(** [access(p)] succeeds: [p] is there, and it is a directory when the
    string ends in a separator. *)
Definition present (d : tree) (p : jpath) : bool :=
  match d !! segments p with
  | Some Dir => true
  | Some (File _) => negb (trailing_slash p)
  | None => false
  end.

(** [mkdir -p]: walks down from the root; [reached] is the prefix reached,
    [todo] the segments still to go.  A missing directory is created, a
    file on the way stops the walk. *)
Fixpoint mkdirp (reached : path) (todo : list jsstring) (d : tree)
  : tree * option errno :=
  match d !! reached with
  | Some (File _) =>
      (d, Some (match todo with [] => EEXIST | _ => ENOTDIR end))
  | found =>
      let d1 := match found with None => <[reached := Dir]> d | _ => d end in
      match todo with
      | [] => (d1, None)
      | s :: todo' => mkdirp (reached ++ [s]) todo' d1
      end
  end.

(** [open(p, O_WRONLY|O_CREAT|O_TRUNC)] and write: the parent must be a
    directory, [p] must not be one. *)
Definition write (p : jpath) (c : payload) (d : tree) : tree * option errno :=
  match segments p with
  | [] => (d, Some EISDIR)
  | _ :: _ =>
      match d !! removelast (segments p) with
      | None => (d, Some ENOENT)
      | Some (File _) => (d, Some ENOTDIR)
      | Some Dir =>
          match d !! segments p with
          | Some Dir => (d, Some EISDIR)
          | _ => if trailing_slash p then (d, Some EISDIR)
                 else (<[segments p := File c]> d, None)
          end
      end
  end.

(** [rm -rf p]: [p] and everything below it go. *)
Definition rmrf (p : path) (d : tree) : tree :=
  filter (λ kv, ¬ (p `prefix_of` kv.1)) d.

End Tree.

(** ** The world a call runs in *)

Inductive message :=
| CleanedUp        (* 'Cleaned up incomplete project directory' *)
| CouldNotCleanUp. (* 'Warning: Could not clean up project directory' *)

(** What a run does, in order. *)
Inductive event :=
| EvValidated (projectName : jsstring) (r : completion unit)
| EvPathExists (p : jpath) (r : bool)
| EvResolved (templateType : jsstring) (truthy : bool)
| EvEnsureDir (p : jpath) (ok : bool)
| EvWriteJson (p : jpath) (ok : bool)
| EvWriteFile (p : jpath) (ok : bool)
| EvRemove (p : jpath) (ok : bool)
| EvConsoleLog (m : message)
| EvConsoleWarn (m : message).

(** [faults] is the schedule of failures of the environment (disk full,
    permission denied, busy directory, ...): each mutating call of the file
    system takes the head; [Some e] makes that call raise [e] and leave the
    tree as it is, [None] lets it run.  An empty schedule is a file system
    that does not fail. *)
Record world := World {
  cwd : path;                    (* process.cwd() *)
  disk : tree;
  faults : list (option errno);
  trace : list event
}.

Definition record (ev : event) (w : world) : world :=
  {| cwd := cwd w; disk := disk w; faults := faults w; trace := trace w ++ [ev] |}.

(** A computation: state passing with exceptions. *)
Definition M (A : Type) : Type := world → completion A * world.

Definition ret {A} (a : A) : M A := λ w, (Returns a, w).

Definition throw {A} (e : error) : M A := λ w, (Throws e, w).

Definition bind {A B} (m : M A) (k : A → M B) : M B :=
  λ w, match m w with
       | (Returns a, w1) => k a w1
       | (Throws e, w1) => (Throws e, w1)
       end.

(** [try { m } catch (error) { handler(error) }] *)
Definition try_catch {A} (m : M A) (handler : error → M A) : M A :=
  λ w, match m w with
       | (Returns a, w1) => (Returns a, w1)
       | (Throws e, w1) => handler e w1
       end.

Global Instance M_ret : MRet M := @ret.
Global Instance M_bind : MBind M := λ A B k m, bind m k.

Module Process.
(** [process.cwd()]; the working directory is a field of the world, and
    reading it does not fail. *)
Definition cwd : M path := λ w, (Returns (cwd w), w).
End Process.

Module Console.
Definition log (m : message) : M unit := λ w, (Returns tt, record (EvConsoleLog m) w).
Definition warn (m : message) : M unit := λ w, (Returns tt, record (EvConsoleWarn m) w).
End Console.

Module Fs.

(** A mutating call: it takes the head of the fault schedule, runs on the
    tree unless the schedule makes it fail, and records itself. *)
Definition call (ev : bool → event) (run : tree → tree * option errno) : M unit :=
  λ w,
    let rest := tail (faults w) in
    match head (faults w) with
    | Some (Some e) =>
        (Throws (FsError e),
         {| cwd := cwd w; disk := disk w; faults := rest;
            trace := trace w ++ [ev false] |})
    | _ =>
        match run (disk w) with
        | (d, Some e) =>
            (Throws (FsError e),
             {| cwd := cwd w; disk := d; faults := rest;
                trace := trace w ++ [ev false] |})
        | (d, None) =>
            (Returns tt,
             {| cwd := cwd w; disk := d; faults := rest;
                trace := trace w ++ [ev true] |})
        end
    end.

(** [fs.pathExists]: [access] with every failure turned into [false]; it
    never throws. *)
Definition pathExists (p : jpath) : M bool :=
  λ w, let r := Tree.present (disk w) p in (Returns r, record (EvPathExists p r) w).

Definition ensureDir (p : jpath) : M unit :=
  call (EvEnsureDir p) (Tree.mkdirp [] (segments p)).

Definition writeFile (p : jpath) (c : payload) : M unit :=
  call (EvWriteFile p) (Tree.write p c).

(** [fs.writeJson] is [fs.writeFile] of the stringified object. *)
Definition writeJson (p : jpath) (c : payload) : M unit :=
  call (EvWriteJson p) (Tree.write p c).

Definition remove (p : jpath) : M unit :=
  call (EvRemove p) (λ d, (Tree.rmrf (segments p) d, None)).

End Fs.

(** ** The template modules

    Each [generate(projectPath, projectName)] is a straight sequence of
    awaited [fs.ensureDir], [fs.writeJson] and [fs.writeFile] calls on
    [path.join(projectPath, <literal>)]; one entry per call, in the order
    of the source: basic in src/unnamed/part_000 (from line 349), ecom and
    chatapp in src/src/templates/ecom.js (from lines 441 and 1752), blog
    and aichat in src/unnamed/part_001 (from lines 420 and 1917). *)

Inductive template_op :=
| OpEnsureDir (rel : string)
| OpWriteJson (rel : string) (c : payload)
| OpWriteFile (rel : string) (c : payload).

Module Templates.

Definition nl : string := String (ascii_of_nat 10) EmptyString.

(** The two [.gitignore] literals, 'node_modules/\n.env\n*.log\n' and the
    one of ecom with 'uploads/\n' added. *)
Definition gitignore_short : string :=
  "node_modules/" +:+ nl +:+ ".env" +:+ nl +:+ "*.log" +:+ nl.

Definition gitignore_uploads : string :=
  gitignore_short +:+ "uploads/" +:+ nl.

Definition basic_generate (projectName : jsstring) : list template_op :=
  [ OpEnsureDir "config"; OpEnsureDir "controllers"; OpEnsureDir "models";
    OpEnsureDir "routes"; OpEnsureDir "middlewares"; OpEnsureDir "utils";
    OpEnsureDir "public";
    OpWriteJson "package.json" (PackageJson basic projectName);
    OpWriteFile "index.js" (Constant basic "indexJs");
    OpWriteFile "config/db.js" (Constant basic "dbConfig");
    OpWriteFile "controllers/healthController.js" (Constant basic "healthController");
    OpWriteFile "routes/health.js" (Constant basic "healthRoutes");
    OpWriteFile "middlewares/auth.js" (Constant basic "authMiddleware");
    OpWriteFile "utils/logger.js" (Constant basic "logger");
    OpWriteFile "utils/response.js" (Constant basic "responseUtils");
    OpWriteFile "models/README.md" (Constant basic "modelsReadme");
    OpWriteFile "public/index.html" (Constant basic "indexHtml");
    OpWriteFile ".env" (Constant basic "envFile");
    OpWriteFile "README.md" (ReadmeFile basic projectName);
    OpWriteFile ".gitignore" (Constant basic "gitignoreContent") ].

Definition chatapp_generate (projectName : jsstring) : list template_op :=
  [ OpEnsureDir "models"; OpEnsureDir "routes"; OpEnsureDir "middleware";
    OpEnsureDir "controllers"; OpEnsureDir "config"; OpEnsureDir "utils";
    OpWriteJson "package.json" (PackageJson chatapp projectName);
    OpWriteFile "server.js" (Constant chatapp "mainServerJs");
    OpWriteFile "config/database.js" (Constant chatapp "databaseConfig");
    OpWriteFile "models/User.js" (Constant chatapp "userModel");
    OpWriteFile "models/Room.js" (Constant chatapp "roomModel");
    OpWriteFile "models/Message.js" (Constant chatapp "messageModel");
    OpWriteFile "middleware/auth.js" (Constant chatapp "authMiddleware");
    OpWriteFile "controllers/authController.js" (Constant chatapp "authController");
    OpWriteFile "controllers/roomController.js" (Constant chatapp "roomController");
    OpWriteFile "controllers/messageController.js" (Constant chatapp "messageController");
    OpWriteFile "routes/auth.js" (Constant chatapp "authRoutes");
    OpWriteFile "routes/rooms.js" (Constant chatapp "roomRoutes");
    OpWriteFile "routes/messages.js" (Constant chatapp "messageRoutes");
    OpWriteFile "utils/socketHandler.js" (Constant chatapp "socketHandler");
    OpWriteFile ".env" (Constant chatapp "envFile");
    OpWriteFile "README.md" (ReadmeFile chatapp projectName);
    OpWriteFile ".gitignore" (Literal gitignore_short) ].

Definition ecom_generate (projectName : jsstring) : list template_op :=
  [ OpWriteJson "package.json" (PackageJson ecom projectName);
    OpWriteFile "server.js" (Constant ecom "serverJs");
    OpWriteFile ".env" (Constant ecom "envFile");
    OpWriteFile "README.md" (ReadmeFile ecom projectName);
    OpWriteFile ".gitignore" (Literal gitignore_uploads);
    OpEnsureDir "models"; OpEnsureDir "routes"; OpEnsureDir "middleware";
    OpEnsureDir "uploads";
    OpWriteFile "models/User.js" (Constant ecom "userModel");
    OpWriteFile "models/Product.js" (Constant ecom "productModel");
    OpWriteFile "models/Cart.js" (Constant ecom "cartModel");
    OpWriteFile "models/Order.js" (Constant ecom "orderModel");
    OpWriteFile "routes/auth.js" (Constant ecom "authRoute");
    OpWriteFile "middleware/auth.js" (Constant ecom "authMiddleware");
    OpWriteFile "routes/products.js" (Constant ecom "productRoutes");
    OpWriteFile "routes/cart.js" (Constant ecom "cartRoutes");
    OpWriteFile "routes/orders.js" (Constant ecom "orderRoutes");
    OpWriteFile "routes/payments.js" (Constant ecom "paymentRoutes") ].

Definition blog_generate (projectName : jsstring) : list template_op :=
  [ OpWriteJson "package.json" (PackageJson blog projectName);
    OpWriteFile "server.js" (Constant blog "serverJs");
    OpWriteFile ".env" (Constant blog "envFile");
    OpWriteFile "README.md" (ReadmeFile blog projectName);
    OpWriteFile ".gitignore" (Literal gitignore_short);
    OpEnsureDir "models"; OpEnsureDir "routes"; OpEnsureDir "middleware";
    OpWriteFile "models/User.js" (Constant blog "userModel");
    OpWriteFile "models/Post.js" (Constant blog "postModel");
    OpWriteFile "models/Comment.js" (Constant blog "commentModel");
    OpWriteFile "middleware/auth.js" (Constant blog "authMiddleware");
    OpWriteFile "routes/auth.js" (Constant blog "authRoutes");
    OpWriteFile "routes/posts.js" (Constant blog "postRoutes");
    OpWriteFile "routes/comments.js" (Constant blog "commentRoutes");
    OpEnsureDir "uploads" ].

Definition aichat_generate (projectName : jsstring) : list template_op :=
  [ OpEnsureDir "models"; OpEnsureDir "routes"; OpEnsureDir "middleware";
    OpEnsureDir "controllers"; OpEnsureDir "config"; OpEnsureDir "utils";
    OpEnsureDir "services";
    OpWriteJson "package.json" (PackageJson aichat projectName);
    OpWriteFile "server.js" (Constant aichat "mainServerJs");
    OpWriteFile "config/database.js" (Constant aichat "databaseConfig");
    OpWriteFile "models/User.js" (Constant aichat "userModel");
    OpWriteFile "models/Chat.js" (Constant aichat "chatModel");
    OpWriteFile "services/openaiService.js" (Constant aichat "openaiService");
    OpWriteFile "middleware/auth.js" (Constant aichat "authMiddleware");
    OpWriteFile "controllers/authController.js" (Constant aichat "authController");
    OpWriteFile "controllers/chatController.js" (Constant aichat "chatController");
    OpWriteFile "controllers/usageController.js" (Constant aichat "usageController");
    OpWriteFile "routes/auth.js" (Constant aichat "authRoutes");
    OpWriteFile "routes/chat.js" (Constant aichat "chatRoutes");
    OpWriteFile "routes/usage.js" (Constant aichat "usageRoutes");
    OpWriteFile "utils/socketHandler.js" (Constant aichat "socketHandler");
    OpWriteFile ".env" (Constant aichat "envFile");
    OpWriteFile "README.md" (ReadmeFile aichat projectName);
    OpWriteFile ".gitignore" (Literal gitignore_short) ].

Definition calls (t : template_kind) (projectName : jsstring) : list template_op :=
  match t with
  | basic => basic_generate projectName
  | chatapp => chatapp_generate projectName
  | ecom => ecom_generate projectName
  | blog => blog_generate projectName
  | aichat => aichat_generate projectName
  end.

(** One awaited call. *)
Definition run_op (projectPath : jpath) (op : template_op) : M unit :=
  match op with
  | OpEnsureDir rel =>
      Fs.ensureDir (NodePath.join (segments projectPath) (js rel))
  | OpWriteJson rel c =>
      Fs.writeJson (NodePath.join (segments projectPath) (js rel)) c
  | OpWriteFile rel c =>
      Fs.writeFile (NodePath.join (segments projectPath) (js rel)) c
  end.

(** The calls one after the other; the first that throws ends the run. *)
Fixpoint run (projectPath : jpath) (ops : list template_op) : M unit :=
  match ops with
  | [] => mret tt
  | op :: rest => run_op projectPath op;; run projectPath rest
  end.

Definition generate (t : template_kind) (projectPath : jpath)
    (projectName : jsstring) : M unit :=
  run projectPath (calls t projectName).

End Templates.

(** ** The registry [templates] and the lookup [templates[templateType]]

    [templates] is an object literal: a property lookup that misses the five
    own keys goes on to [Object.prototype]. *)

Inductive js_value :=
| VUndefined
| VTemplate (t : template_kind)     (* one of the required template modules *)
| VInherited (key : jsstring).      (* a property of Object.prototype *)

Definition templates : gmap jsstring template_kind :=
  list_to_map
    [ (js "basic", basic); (js "chatapp", chatapp); (js "ecom", ecom);
      (js "blog", blog); (js "aichat", aichat) ].

(** The property names of [Object.prototype]; each is a function, or (for
    [__proto__]) [Object.prototype] itself: an object without a
    [generate] property. *)
Definition object_prototype_keys : list jsstring :=
  [ js "constructor"; js "hasOwnProperty"; js "isPrototypeOf";
    js "propertyIsEnumerable"; js "toLocaleString"; js "toString";
    js "valueOf"; js "__proto__"; js "__defineGetter__";
    js "__defineSetter__"; js "__lookupGetter__"; js "__lookupSetter__" ].

Definition get_template (templateType : jsstring) : js_value :=
  match templates !! templateType with
  | Some t => VTemplate t
  | None =>
      if JsString.includes object_prototype_keys templateType
      then VInherited templateType
      else VUndefined
  end.

(** [!template] is true for [undefined] alone here. *)
Definition falsy (v : js_value) : bool :=
  match v with
  | VUndefined => true
  | _ => false
  end.

(** [template.generate(projectPath, projectName)] *)
Definition call_generate (template : js_value) (projectPath : jpath)
    (projectName : jsstring) : M unit :=
  match template with
  | VTemplate t => Templates.generate t projectPath projectName
  | _ => throw TypeErrorNotAFunction
  end.

(** ** generateProject *)

(** The pure steps, made visible in the trace. *)
Definition validate (projectName : jsstring) : M unit :=
  λ w, let r := validateProjectName projectName in
       (r, record (EvValidated projectName r) w).

Definition resolve (templateType : jsstring) : M js_value :=
  λ w, let v := get_template templateType in
       (Returns v, record (EvResolved templateType (negb (falsy v))) w).

(** The [try] block. *)
Definition generateProject_try (projectName templateType : jsstring) : M unit :=
  validate projectName;;
  dir ← Process.cwd;
  let projectPath := NodePath.join dir projectName in
  found ← Fs.pathExists projectPath;
  if found : bool then throw (ErrDirectoryExists projectName)
  else
    template ← resolve templateType;
    if falsy template then throw (ErrTemplateNotFound templateType)
    else
      Fs.ensureDir projectPath;;
      call_generate template projectPath projectName.

(** The [catch (error)] block. *)
Definition generateProject_catch (projectName : jsstring) (error : error) : M unit :=
  dir ← Process.cwd;
  let projectPath := NodePath.join dir projectName in
  found ← Fs.pathExists projectPath;
  (if found : bool then
     try_catch
       (Fs.remove projectPath;; Console.log CleanedUp)
       (λ cleanupError, Console.warn CouldNotCleanUp)
   else mret tt);;
  throw error.

Definition generateProject (projectName templateType : jsstring) : M unit :=
  try_catch
    (generateProject_try projectName templateType)
    (generateProject_catch projectName).

(** ** Vocabulary of the statements *)

Module TreeFacts.

(** [p] and all its ancestors are directories. *)
Definition chain (d : tree) (p : path) : Prop :=
  ∀ q, q `prefix_of` p → d !! q = Some Dir.

(** A tree as a file system has it: whatever exists lies in a
    directory. *)
Definition wf (d : tree) : Prop :=
  ∀ p s, is_Some (d !! (p ++ [s])) → d !! p = Some Dir.

(** The same, as a check that runs on a given tree. *)
Definition wf_check (d : tree) : bool :=
  forallb (λ kv, match kv.1 with
                 | [] => true
                 | _ :: _ => match d !! removelast kv.1 with
                             | Some Dir => true
                             | _ => false
                             end
                 end)
          (map_to_list d).

(** Every directory of [d] is still a directory of [d']. *)
Definition keeps_dirs (d d' : tree) : Prop :=
  ∀ p, d !! p = Some Dir → d' !! p = Some Dir.

(** [t] is what [d] has at [base] and below, with paths relative to
    [base]. *)
Definition subtree_is (base : path) (d t : tree) : Prop :=
  ∀ q, d !! (base ++ q) = t !! q.

(** Nothing was created: whatever [d'] has, [d] had. *)
Definition nothing_new (d d' : tree) : Prop :=
  ∀ p n, d' !! p = Some n → d !! p = Some n.

End TreeFacts.

(** The next mutating call is not made to fail by the environment. *)
Definition next_call_runs (w : world) : Prop :=
  match head (faults w) with
  | Some (Some _) => False
  | _ => True
  end.

(** No call is made to fail by the environment. *)
Definition reliable (w : world) : Prop :=
  Forall (λ f, f = None) (faults w).

(** The events of the [catch] block, and those of a template. *)
Definition cleanup_event (ev : event) : Prop :=
  match ev with
  | EvPathExists _ _ | EvRemove _ _ | EvConsoleLog _ | EvConsoleWarn _ => True
  | _ => False
  end.

Definition template_event (ev : event) : Prop :=
  match ev with
  | EvEnsureDir _ _ | EvWriteJson _ _ | EvWriteFile _ _ => True
  | _ => False
  end.

(** The calls of a template on the tree below the project directory
    alone, with paths relative to it.  Used to compute what a template
    leaves in a fresh directory. *)
Module Relative.

Definition no_dotdot (rel : string) : bool :=
  forallb (λ seg, negb (bool_decide (seg = [0x2E; 0x2E])))
          (split_slash [] (js rel)).

Definition stays_below (op : template_op) : bool :=
  match op with
  | OpEnsureDir rel | OpWriteJson rel _ | OpWriteFile rel _ => no_dotdot rel
  end.

Definition step (op : template_op) (t : tree) : tree * option errno :=
  match op with
  | OpEnsureDir rel => Tree.mkdirp [] (segments (NodePath.join [] (js rel))) t
  | OpWriteJson rel c | OpWriteFile rel c => Tree.write (NodePath.join [] (js rel)) c t
  end.

Fixpoint run (ops : list template_op) (t : tree) : option tree :=
  match ops with
  | [] => Some t
  | op :: rest =>
      match step op t with
      | (t', None) => run rest t'
      | (_, Some _) => None
      end
  end.

End Relative.

(** The [try] block up to and including the creation of the project
    directory (steps 1 to 4); it returns the template that was looked up
    and the project path, which step 5 is called with. *)
Definition steps_1_to_4 (projectName templateType : jsstring)
  : M (js_value * jpath) :=
  validate projectName;;
  dir ← Process.cwd;
  let projectPath := NodePath.join dir projectName in
  found ← Fs.pathExists projectPath;
  if found : bool then throw (ErrDirectoryExists projectName)
  else
    template ← resolve templateType;
    if falsy template then throw (ErrTemplateNotFound templateType)
    else
      Fs.ensureDir projectPath;;
      mret (template, projectPath).

(** ** Scenarios: concrete working directories *)

Module Scenario.

Definition work : path := [js "home"; js "dev"; js "work"].

(** /home/dev/work, empty. *)
Definition empty_tree : tree :=
  <[work := Dir]>
    (<[[js "home"; js "dev"] := Dir]> (<[[js "home"] := Dir]> (<[[] := Dir]> ∅))).

Definition empty_dir : world :=
  {| cwd := work; disk := empty_tree; faults := []; trace := [] |}.

(** The same with existing-dir/notes.txt in it. *)
Definition with_existing_dir : world :=
  {| cwd := work;
     disk := <[work ++ [js "existing-dir"; js "notes.txt"] := File (Other 1)]>
               (<[work ++ [js "existing-dir"] := Dir]> empty_tree);
     faults := []; trace := [] |}.

(** A project directory: package.json and node_modules/express/index.js. *)
Definition with_node_modules : world :=
  {| cwd := work;
     disk := <[work ++ [js "node_modules"; js "express"; js "index.js"] := File (Other 3)]>
               (<[work ++ [js "node_modules"; js "express"] := Dir]>
                  (<[work ++ [js "node_modules"] := Dir]>
                     (<[work ++ [js "package.json"] := File (Other 2)]> empty_tree)));
     faults := []; trace := [] |}.

(** The empty directory on a disk that fills up: the directory and three
    files are written, the fourth write fails. *)
Definition disk_fills_up : world :=
  {| cwd := work; disk := empty_tree;
     faults := [None; None; None; None; Some ENOSPC]; trace := [] |}.

(** The same, and then the removal of the directory fails as well. *)
Definition disk_fills_up_and_stays_busy : world :=
  {| cwd := work; disk := empty_tree;
     faults := [None; None; None; None; Some ENOSPC; Some EBUSY]; trace := [] |}.

End Scenario.

(** ** The name rules, in the words of the specification *)

Module NameRules.

(** A unit of [[A-Za-z0-9-_]]. *)
Definition allowed_unit (c : N) : Prop :=
  0x41 ≤ c ≤ 0x5A ∨ 0x61 ≤ c ≤ 0x7A ∨ 0x30 ≤ c ≤ 0x39 ∨ c = 0x2D ∨ c = 0x5F.

(** Equal when the case of the ASCII letters is ignored. *)
Definition same_ignoring_case (a b : jsstring) : Prop :=
  Forall2 (λ x y, JsString.lower_unit x = JsString.lower_unit y) a b.

Definition reserved (name : jsstring) : Prop :=
  Exists (same_ignoring_case name) reservedNames.

Definition leading_dot_or_hyphen (name : jsstring) : Prop :=
  head name = Some 0x2E ∨ head name = Some 0x2D.

(** The invariant of a ProjectRequest's name. *)
Definition valid (name : jsstring) : Prop :=
  Forall allowed_unit name
  ∧ (1 ≤ length name ≤ 214)%nat
  ∧ ¬ leading_dot_or_hyphen name
  ∧ ¬ reserved name.

(** At least one rule is violated. *)
Definition violated (name : jsstring) : Prop :=
  Forall (λ c, JsString.is_white_space c = true) name   (* empty or white space only *)
  ∨ (214 < length name)%nat
  ∨ Exists (λ c, ¬ allowed_unit c) name
  ∨ leading_dot_or_hyphen name
  ∨ reserved name.

End NameRules.

(** ** The manifest of a template: [packageJson(projectName)]

    The fields of the object that name the project and its entry point;
    the same in the five modules but for [main] and the two scripts. *)

Record manifest := Manifest {
  pj_name : jsstring;      (* name: projectName *)
  pj_version : string;     (* version *)
  pj_main : string;        (* main *)
  pj_start : string;       (* scripts.start *)
  pj_dev : string          (* scripts.dev *)
}.

Definition packageJson (t : template_kind) (projectName : jsstring) : manifest :=
  match t with
  | basic =>
      {| pj_name := projectName; pj_version := "1.0.0"; pj_main := "index.js";
         pj_start := "node index.js"; pj_dev := "nodemon index.js" |}
  | chatapp | ecom | blog | aichat =>
      {| pj_name := projectName; pj_version := "1.0.0"; pj_main := "server.js";
         pj_start := "node server.js"; pj_dev := "nodemon server.js" |}
  end.

(** ** The command line front end (src/bin/cli.js) *)

Module Cli.

(** The answers of the [validate] function of the name prompt: [true], or
    one of its three messages. *)
Inductive prompt_answer :=
| Accepted                 (* true *)
| NameRequired             (* 'Project name is required' *)
| NameOver50               (* 'Project name must be less than 50 characters' *)
| NameBadCharacters.       (* '... can only contain letters, numbers, hyphens, and underscores' *)

(** The class of [/^[a-zA-Z0-9-_]+$/], without the [i] flag: a-z, A-Z, 0-9,
    '-' and '_'. *)
Definition class_ranges : list (N * N) :=
  [(0x61, 0x7A); (0x41, 0x5A); (0x30, 0x39); (0x2D, 0x2D); (0x5F, 0x5F)].

Definition class_members : list N := class_ranges ≫= Regex.range_members.

Definition class_matches (c : N) : bool :=
  existsb (fun m => m =? c) class_members.

Definition test (s : jsstring) : bool :=
  match s with
  | [] => false
  | _ => forallb class_matches s
  end.

(** The [validate] function of the prompt for the project name. *)
Definition validate (input : jsstring) : prompt_answer :=
  if bool_decide (JsString.trim input = []) then NameRequired
  else if (50 <? length input)%nat then NameOver50
  else if negb (test input) then NameBadCharacters
  else Accepted.

(** The [value]s of [templateChoices], the menu of templates. *)
Definition templateChoices : list jsstring :=
  [js "basic"; js "chatapp"; js "ecom"; js "blog"; js "aichat"].

End Cli.

(** * Properties *)

(** ** Strings and the regular expression *)

(** Case analysis on every comparison of code units in the goal. *)
Ltac unit_cases :=
  repeat match goal with
    | |- context [N.leb ?a ?b] => destruct (N.leb_spec a b)
    | |- context [N.eqb ?a ?b] => destruct (N.eqb_spec a b)
    end;
  simpl; try done; try lia.

(** Replaces the literals [js "..."] of the goal by their code units. *)
Ltac eval_js :=
  repeat match goal with
    | |- context [js ?s] =>
        let v := eval vm_compute in (js s) in change (js s) with v
    end.

Section StringFacts.

Import JsString.

Lemma trimStart_nil (s : jsstring) :
  trimStart s = [] ↔ Forall (λ c, is_white_space c = true) s.
Proof.
  induction s as [|c s IH]; simpl.
  - split; [constructor | done].
  - destruct (is_white_space c) eqn:Hc.
    + rewrite IH. split.
      * intros H. by constructor.
      * by inversion 1.
    + split; [done |]. inversion 1; congruence.
Qed.

Lemma trimStart_head (s t : jsstring) (c : N) :
  trimStart s = c :: t → is_white_space c = false.
Proof.
  induction s as [|x s IH]; simpl; [done |].
  destruct (is_white_space x) eqn:Hx; [done |]. by intros [= <- _].
Qed.

(** [trim] leaves nothing exactly when every unit is white space. *)
Lemma trim_nil (s : jsstring) :
  trim s = [] ↔ Forall (λ c, is_white_space c = true) s.
Proof.
  unfold trim, trimEnd. split.
  - intros H. apply (f_equal reverse) in H.
    rewrite reverse_involutive, reverse_nil in H.
    apply trimStart_nil in H. rewrite Forall_reverse in H.
    apply trimStart_nil.
    destruct (trimStart s) as [|c t] eqn:Ht; [done | exfalso].
    apply trimStart_head in Ht. apply Forall_cons in H as [Hc _].
    simpl in Hc. congruence.
  - intros H. apply trimStart_nil in H. by rewrite H.
Qed.

Lemma lower_unit_dot (c : N) : lower_unit c = 0x2E → c = 0x2E.
Proof. unfold lower_unit. unit_cases. Qed.

(** The printable ASCII units other than the space are not white space. *)
Lemma printable_not_white (c : N) :
  0x21 ≤ c ≤ 0x7E → is_white_space c = false.
Proof.
  intros Hc. unfold is_white_space.
  repeat match goal with
    | |- context [N.eqb c ?k] =>
        replace (N.eqb c k) with false by (symmetry; apply N.eqb_neq; lia)
    end.
  replace (0x2000 <=? c) with false by (symmetry; apply N.leb_gt; lia).
  reflexivity.
Qed.

Lemma lower_unit_range (c : N) :
  0x21 ≤ lower_unit c ≤ 0x7E → 0x21 ≤ c ≤ 0x7E.
Proof. unfold lower_unit. unit_cases. Qed.

End StringFacts.

Section RegexFacts.

Import Regex NameRules.

Lemma elem_of_range_members (lo hi m : N) :
  lo ≤ hi → m ∈ range_members (lo, hi) ↔ lo ≤ m ≤ hi.
Proof.
  intros Hle. unfold range_members. simpl. rewrite list_elem_of_fmap. split.
  - intros (i & -> & Hi). apply elem_of_seq in Hi. lia.
  - intros Hm. exists (N.to_nat (m - lo)). split; [lia |].
    apply elem_of_seq. lia.
Qed.

Lemma elem_of_class_members (m : N) :
  m ∈ class_members ↔
  0x61 ≤ m ≤ 0x7A ∨ 0x30 ≤ m ≤ 0x39 ∨ m = 0x2D ∨ m = 0x5F.
Proof.
  unfold class_members, class_ranges. rewrite list_elem_of_bind. split.
  - intros (r & Hm & Hr).
    repeat (apply elem_of_cons in Hr as [-> | Hr]);
      [apply elem_of_range_members in Hm; lia .. | by apply elem_of_nil in Hr].
  - intros [H | [H | [H | H]]].
    + exists (0x61, 0x7A). split; [apply elem_of_range_members; lia | repeat constructor].
    + exists (0x30, 0x39). split; [apply elem_of_range_members; lia | repeat constructor].
    + exists (0x2D, 0x2D). split; [apply elem_of_range_members; lia | repeat constructor].
    + exists (0x5F, 0x5F). split; [apply elem_of_range_members; lia | repeat constructor].
Qed.

Lemma canonicalize_small (c : N) :
  0x61 ≤ c ≤ 0x7A → canonicalize c = c - 0x20.
Proof. unfold canonicalize. unit_cases. Qed.

Lemma canonicalize_other (c : N) :
  c < 0x61 ∨ 0x7A < c → canonicalize c = c.
Proof. unfold canonicalize. unit_cases. Qed.

(** The class with the [i] flag is exactly [[A-Za-z0-9-_]]. *)
Lemma class_matches_allowed (c : N) :
  class_matches c = true ↔ allowed_unit c.
Proof.
  unfold class_matches, allowed_unit. rewrite existsb_exists. split.
  - intros (m & Hm & Heq). apply list_elem_of_In, elem_of_class_members in Hm.
    apply N.eqb_eq in Heq.
    destruct (decide (0x61 ≤ c ≤ 0x7A)) as [Hc | Hc]; [lia |].
    rewrite (canonicalize_other c) in Heq by lia.
    destruct (decide (0x61 ≤ m ≤ 0x7A)) as [Hm' | Hm'].
    + rewrite canonicalize_small in Heq by done. lia.
    + rewrite canonicalize_other in Heq by lia. lia.
  - intros H.
    destruct (decide (0x41 ≤ c ≤ 0x5A)) as [Hc | Hc].
    + exists (c + 0x20).
      rewrite <- list_elem_of_In, elem_of_class_members, N.eqb_eq.
      rewrite canonicalize_small, canonicalize_other by lia. lia.
    + exists c.
      rewrite <- list_elem_of_In, elem_of_class_members, N.eqb_eq. lia.
Qed.

Lemma test_allowed (s : jsstring) :
  test s = true ↔ s ≠ [] ∧ Forall allowed_unit s.
Proof.
  destruct s as [|c s]; [simpl; split; [done | by intros [? _]] |].
  unfold test. rewrite forallb_forall, Forall_forall. split.
  - intros H. split; [done |]. intros x Hx.
    by apply class_matches_allowed, H, list_elem_of_In.
  - intros [_ H] x Hx. by apply class_matches_allowed, H, list_elem_of_In.
Qed.

(** A name the regular expression accepts is ASCII. *)
Lemma regex_test_ascii (s : jsstring) :
  test s = true → Forall (λ c, c < 0x80) s.
Proof.
  intros [_ H]%test_allowed. eapply Forall_impl; [exact H |].
  unfold allowed_unit. intros c Hc. simpl. lia.
Qed.

End RegexFacts.

(** ** validateProjectName *)

Section Validation.

Import JsString NameRules.

Lemma startsWith_head (s : jsstring) (c : N) :
  startsWith s c = true ↔ head s = Some c.
Proof.
  destruct s as [|x s]; simpl; [done |].
  rewrite N.eqb_eq. split; congruence.
Qed.

Lemma includes_elem_of (arr : list jsstring) (s : jsstring) :
  includes arr s = true ↔ s ∈ arr.
Proof. unfold includes. apply bool_decide_eq_true. Qed.

(** A reserved name is lower case already, so ignoring case against it is
    comparing the lower-cased name with it. *)
Lemma same_ignoring_case_reserved (name r : jsstring) :
  r ∈ reservedNames →
  same_ignoring_case name r ↔ toLowerCase name = r.
Proof.
  intros Hr. unfold same_ignoring_case, toLowerCase.
  assert (Hlow : lower_unit <$> r = r).
  { unfold reservedNames in Hr.
    repeat (apply elem_of_cons in Hr as [-> | Hr]); try reflexivity.
    by apply elem_of_nil in Hr. }
  rewrite <- Hlow at 2. clear. revert r.
  induction name as [|x name IH]; intros [|y r]; simpl.
  - split; [done | constructor].
  - split; [by inversion 1 | done].
  - split; [by inversion 1 | done].
  - split.
    + inversion 1; subst. f_equal; [done | by apply IH].
    + intros [= Hx Hr]. constructor; [done | by apply IH].
Qed.

Lemma reserved_includes (name : jsstring) :
  includes reservedNames (toLowerCase name) = true ↔ reserved name.
Proof.
  rewrite includes_elem_of. unfold reserved. rewrite Exists_exists. split.
  - intros H. exists (toLowerCase name). split; [done |].
    by apply same_ignoring_case_reserved.
  - intros (r & Hr & Hsame).
    apply same_ignoring_case_reserved in Hsame; [| done]. by rewrite Hsame.
Qed.

Lemma allowed_not_white (c : N) : allowed_unit c → is_white_space c = false.
Proof. intros H. apply printable_not_white. unfold allowed_unit in H. lia. Qed.

(** What [validateProjectName] returning means, check by check. *)
Lemma validateProjectName_returns (name : jsstring) :
  validateProjectName name = Returns tt ↔
    name ≠ []
    ∧ trim name ≠ []
    ∧ (length name ≤ 214)%nat
    ∧ Regex.test name = true
    ∧ startsWith name 0x2E = false
    ∧ startsWith name 0x2D = false
    ∧ includes reservedNames (toLowerCase name) = false.
Proof.
  unfold validateProjectName.
  destruct (bool_decide_reflect (name = [])) as [-> | Hne]; simpl.
  { split; [done | by intros [? _]]. }
  destruct (trim name) as [|t ts] eqn:Htrim; simpl.
  { split; [done | by intros (_ & ? & _)]. }
  destruct (Nat.ltb_spec 214 (length name)); simpl.
  { split; [done | intros (_ & _ & ? & _); lia]. }
  destruct (Regex.test name); simpl; [| split; [done | by intros (_ & _ & _ & ? & _)]].
  destruct (startsWith name 0x2E); simpl;
    [split; [done | by intros (_ & _ & _ & _ & ? & _)] |].
  destruct (startsWith name 0x2D); simpl;
    [split; [done | by intros (_ & _ & _ & _ & _ & ? & _)] |].
  destruct (includes reservedNames (toLowerCase name)); simpl;
    [split; [done | by intros (_ & _ & _ & _ & _ & _ & ?)] |].
  split; [| done]. intros _. repeat split; (done || lia).
Qed.

(** Every error of [validateProjectName] is an InvalidNameError. *)
Lemma validateProjectName_throws_kind (name : jsstring) (e : error) :
  validateProjectName name = Throws e → kind_of e = InvalidNameError.
Proof.
  unfold validateProjectName.
  repeat case_match; intros [= <-]; reflexivity.
Qed.

End Validation.

Section ValidationClaims.

Import JsString NameRules.

(** C5: every name made of letters, digits, '-' and '_' only, of length 1
    to 214, that does not start with '.' or '-' and is not a reserved
    name when case is ignored, is accepted: [validateProjectName]
    returns, without a value and without throwing. *)
Theorem validateProjectName_accepts_valid (name : jsstring) :
  valid name → validateProjectName name = Returns tt.
Proof.
  intros (Hunits & Hlen & Hlead & Hres).
  assert (Hne : name ≠ []) by (intros ->; simpl in Hlen; lia).
  apply validateProjectName_returns. repeat split.
  - done.
  - rewrite trim_nil. intros Hws.
    destruct name as [|c name]; [done |].
    apply Forall_cons in Hws as [Hc _], Hunits as [Hu _].
    apply allowed_not_white in Hu. simpl in Hc. congruence.
  - lia.
  - by apply test_allowed.
  - apply not_true_is_false. rewrite startsWith_head.
    intros H. apply Hlead. by left.
  - apply not_true_is_false. rewrite startsWith_head.
    intros H. apply Hlead. by right.
  - apply not_true_is_false. by rewrite reserved_includes.
Qed.

Lemma my_app_valid : valid (js "my-app").
Proof.
  unfold valid. eval_js. split; [| split; [| split]].
  - repeat constructor; unfold allowed_unit; lia.
  - simpl. lia.
  - intros [H | H]; discriminate.
  - unfold reserved, reservedNames. rewrite !Exists_cons, Exists_nil.
    intros [H | [H | [H | [H | []]]]];
      apply Forall2_length in H; vm_compute in H; discriminate.
Qed.

Lemma validateProjectName_accepts_valid_witness :
  validateProjectName (js "my-app") = Returns tt.
Proof. apply (validateProjectName_accepts_valid (js "my-app")), my_app_valid. Defined.

(** C10: the reserved-name error is raised for names that equal
    "node_modules" when case is ignored, and for no other: a name equal
    to "favicon.ico", "package.json" or "package-lock.json" when case is
    ignored contains a dot and is rejected before, by the check of the
    characters. *)
Theorem reserved_error_only_node_modules :
  (∀ name n : jsstring,
      validateProjectName name = Throws (ErrReservedName n) →
      n = name ∧ same_ignoring_case name (js "node_modules"))
  ∧ (∀ name r : jsstring,
      r ∈ [js "favicon.ico"; js "package.json"; js "package-lock.json"] →
      same_ignoring_case name r →
      validateProjectName name = Throws ErrInvalidCharacters).
Proof.
  split.
  - intros name n. unfold validateProjectName.
    destruct (_ || _); [done |].
    destruct (_ <? _)%nat; [done |].
    destruct (Regex.test name) eqn:Htest; simpl; [| done].
    destruct (_ || _); [done |].
    destruct (includes reservedNames (toLowerCase name)) eqn:Hinc; [| done].
    intros [= <-]. split; [done |].
    apply includes_elem_of in Hinc.
    apply test_allowed in Htest as [_ Hunits].
    assert (Hnodot : 0x2E ∉ toLowerCase name).
    { unfold toLowerCase. rewrite list_elem_of_fmap.
      intros (x & Hx & Hin). symmetry in Hx. apply lower_unit_dot in Hx.
      subst x. rewrite Forall_forall in Hunits.
      specialize (Hunits _ Hin). unfold allowed_unit in Hunits. lia. }
    assert (Hdot : ∀ r, r ∈ [js "favicon.ico"; js "package.json";
                             js "package-lock.json"] → 0x2E ∈ r).
    { intros r Hr.
      repeat (apply elem_of_cons in Hr as [-> | Hr]);
        [vm_compute; repeat constructor .. | by apply elem_of_nil in Hr]. }
    unfold reservedNames in Hinc.
    apply elem_of_cons in Hinc as [Hnm | Hother].
    + apply same_ignoring_case_reserved; [repeat constructor | done].
    + exfalso. by apply Hnodot, Hdot.
  - intros name r Hr Hsame.
    assert (Hlen : length name = length r) by by apply Forall2_length in Hsame.
    assert (Hr' : (0 < length r ≤ 214)%nat ∧ ∃ i, r !! i = Some 0x2E
                  ∧ ∃ c, head r = Some c ∧ 0x61 ≤ c ≤ 0x7A).
    { repeat (apply elem_of_cons in Hr as [-> | Hr]);
        [| | | by apply elem_of_nil in Hr].
      - eval_js. split; [simpl; lia |]. exists 7%nat. split; [done |].
        eexists. split; [reflexivity | lia].
      - eval_js. split; [simpl; lia |]. exists 7%nat. split; [done |].
        eexists. split; [reflexivity | lia].
      - eval_js. split; [simpl; lia |]. exists 12%nat. split; [done |].
        eexists. split; [reflexivity | lia]. }
    destruct Hr' as (Hrlen & (i & Hi & c & Hc & Hcr)).
    unfold validateProjectName.
    rewrite bool_decide_false by (intros ->; simpl in Hlen; lia). simpl.
    destruct (trim name) as [|t ts] eqn:Htrim.
    { exfalso. apply trim_nil in Htrim.
      destruct r as [|y r]; [done |]. injection Hc as ->.
      apply Forall2_cons_inv_r in Hsame as (x & name' & Hx & _ & ->).
      apply Forall_cons in Htrim as [Hws _]. simpl in Hws.
      rewrite printable_not_white in Hws; [done |].
      apply lower_unit_range. rewrite Hx.
      unfold lower_unit. unit_cases. }
    simpl. destruct (Nat.ltb_spec 214 (length name)); [lia |].
    destruct (Regex.test name) eqn:Htest; [exfalso | done].
    apply test_allowed in Htest as [_ Hunits].
    destruct (Forall2_lookup_r _ _ _ _ _ Hsame Hi) as (x & Hxi & Hx).
    apply lower_unit_dot in Hx. subst x.
    apply list_elem_of_lookup_2 in Hxi.
    rewrite Forall_forall in Hunits. specialize (Hunits _ Hxi).
    unfold allowed_unit in Hunits. lia.
Qed.

Lemma reserved_error_only_node_modules_witness :
  same_ignoring_case (js "Node_Modules") (js "node_modules")
  ∧ validateProjectName (js "Package.JSON") = Throws ErrInvalidCharacters.
Proof.
  split.
  - apply (proj1 reserved_error_only_node_modules
             (js "Node_Modules") (js "Node_Modules")).
    vm_compute. reflexivity.
  - apply (proj2 reserved_error_only_node_modules
             (js "Package.JSON") (js "package.json")).
    + vm_compute. repeat constructor.
    + vm_compute. repeat constructor.
Defined.

End ValidationClaims.

(** ** The tree operations *)

Section TreeLemmas.

Import Tree TreeFacts.

Lemma rmrf_lookup (p q : path) (d : tree) :
  rmrf p d !! q = if decide (p `prefix_of` q) then None else d !! q.
Proof.
  unfold rmrf. rewrite map_lookup_filter.
  destruct (d !! q) as [n|]; simpl.
  - case_decide.
    + rewrite option_guard_False; [done |]. simpl. by intros H'.
    + by rewrite option_guard_True.
  - by case_decide.
Qed.

Lemma rmrf_gone (p q : path) (d : tree) : rmrf p d !! (p ++ q) = None.
Proof.
  rewrite rmrf_lookup. rewrite decide_True; [done |]. by apply prefix_app_r.
Qed.

Lemma rmrf_nothing_new (p : path) (d : tree) : nothing_new d (rmrf p d).
Proof.
  intros q n. rewrite rmrf_lookup. by case_decide.
Qed.

Lemma keeps_dirs_refl (d : tree) : keeps_dirs d d.
Proof. by intros p. Qed.

Lemma keeps_dirs_trans (d1 d2 d3 : tree) :
  keeps_dirs d1 d2 → keeps_dirs d2 d3 → keeps_dirs d1 d3.
Proof. intros H12 H23 p Hp. by apply H23, H12. Qed.

Lemma keeps_dirs_insert (d : tree) (p : path) (n : node) :
  d !! p ≠ Some Dir → keeps_dirs d (<[p := n]> d).
Proof.
  intros Hp q Hq. rewrite lookup_insert_ne; [done |]. congruence.
Qed.

Lemma mkdirp_keeps (seen : path) (todo : list jsstring) (d : tree) :
  keeps_dirs d (mkdirp seen todo d).1.
Proof.
  revert seen d. induction todo as [|s todo IH]; intros seen d; simpl.
  - destruct (d !! seen) as [[|c]|] eqn:Hd; simpl;
      [apply keeps_dirs_refl | apply keeps_dirs_refl |].
    apply keeps_dirs_insert. congruence.
  - destruct (d !! seen) as [[|c]|] eqn:Hd; simpl.
    + apply IH.
    + apply keeps_dirs_refl.
    + eapply keeps_dirs_trans; [| apply IH].
      apply keeps_dirs_insert. congruence.
Qed.

(** When [mkdir -p] succeeds the directory is there. *)
Lemma mkdirp_creates (seen : path) (todo : list jsstring) (d d' : tree) :
  mkdirp seen todo d = (d', None) → d' !! (seen ++ todo) = Some Dir.
Proof.
  revert seen d. induction todo as [|s todo IH]; intros seen d; simpl.
  - rewrite app_nil_r.
    destruct (d !! seen) as [[|c]|] eqn:Hd; intros [= <-]; [done |].
    apply lookup_insert_eq.
  - replace (seen ++ s :: todo) with ((seen ++ [s]) ++ todo)
      by by rewrite <- app_assoc.
    destruct (d !! seen) as [[|c]|] eqn:Hd; [apply IH | done | apply IH].
Qed.

Lemma write_keeps (p : jpath) (c : payload) (d : tree) :
  keeps_dirs d (write p c d).1.
Proof.
  unfold write. repeat case_match; simpl; try apply keeps_dirs_refl.
  all: apply keeps_dirs_insert; congruence.
Qed.

Lemma wf_check_sound (d : tree) : wf_check d = true → wf d.
Proof.
  unfold wf_check. rewrite forallb_forall. intros Hall p s [n Hn].
  apply elem_of_map_to_list, list_elem_of_In, Hall in Hn. simpl in Hn.
  destruct (p ++ [s]) as [|x l] eqn:Hps.
  { by apply app_eq_nil in Hps as [_ ?]. }
  rewrite <- Hps, removelast_last in Hn. by destruct (d !! p) as [[|c]|].
Qed.

Lemma wf_above (d : tree) (p q : path) :
  wf d → q ≠ [] → is_Some (d !! (p ++ q)) → d !! p = Some Dir.
Proof.
  intros Hwf. induction q as [|s q IH] using rev_ind; [done |].
  intros _ Hsome. rewrite app_assoc in Hsome. apply Hwf in Hsome.
  destruct q as [|x q]; [by rewrite app_nil_r in Hsome |].
  apply IH; [done | by rewrite Hsome].
Qed.

Lemma wf_chain (d : tree) (p : path) :
  wf d → d !! p = Some Dir → chain d p.
Proof.
  intros Hwf Hp q [k ->]. destruct k as [|x k].
  - by rewrite app_nil_r in Hp.
  - eapply (wf_above d q (x :: k)); [done | done | by rewrite Hp].
Qed.

Lemma wf_absent (d : tree) (p q : path) :
  wf d → d !! p = None → d !! (p ++ q) = None.
Proof.
  intros Hwf Hp. destruct q as [|x q]; [by rewrite app_nil_r |].
  destruct (d !! (p ++ x :: q)) eqn:Hq; [| done].
  rewrite (wf_above d p (x :: q)) in Hp; [done .. |]. by rewrite Hq.
Qed.

(** Walking down a chain of directories changes nothing. *)
Lemma mkdirp_skip (seen pre : path) (todo : list jsstring) (d : tree) :
  chain d (seen ++ pre) → pre ++ todo ≠ [] →
  mkdirp seen (pre ++ todo) d =
    match pre with [] => mkdirp seen todo d | _ => mkdirp (seen ++ pre) todo d end.
Proof.
  revert seen. induction pre as [|s pre IH]; intros seen Hchain Hne; [done |].
  simpl. rewrite (Hchain seen) by by apply prefix_app_r.
  destruct pre as [|s' pre].
  - simpl. done.
  - rewrite IH; [| by rewrite <- app_assoc | done].
    by rewrite <- app_assoc.
Qed.

Lemma mkdirp_below (base : path) (todo : list jsstring) (d : tree) :
  chain d base → mkdirp [] (base ++ todo) d = mkdirp base todo d.
Proof.
  intros Hchain. destruct base as [|s base]; [done |].
  by rewrite mkdirp_skip.
Qed.

End TreeLemmas.

(** ** The calls of the file system *)

Section CallLemmas.

Import Tree TreeFacts.

Lemma call_runs (ev : bool → event) (run : tree → tree * option errno) (w : world) :
  next_call_runs w →
  Fs.call ev run w =
    match run (disk w) with
    | (d, Some e) =>
        (Throws (FsError e),
         {| cwd := cwd w; disk := d; faults := tail (faults w);
            trace := trace w ++ [ev false] |})
    | (d, None) =>
        (Returns tt,
         {| cwd := cwd w; disk := d; faults := tail (faults w);
            trace := trace w ++ [ev true] |})
    end.
Proof.
  unfold next_call_runs, Fs.call.
  destruct (head (faults w)) as [[e|]|]; [done | done | done].
Qed.

Lemma call_fails (ev : bool → event) (run : tree → tree * option errno)
    (w : world) (e : errno) :
  head (faults w) = Some (Some e) →
  Fs.call ev run w =
    (Throws (FsError e),
     {| cwd := cwd w; disk := disk w; faults := tail (faults w);
        trace := trace w ++ [ev false] |}).
Proof. unfold Fs.call. by intros ->. Qed.

Lemma next_call_runs_dec (w : world) :
  next_call_runs w ∨ ∃ e, head (faults w) = Some (Some e).
Proof.
  unfold next_call_runs. destruct (head (faults w)) as [[e|]|]; eauto.
Qed.

Lemma reliable_next (w : world) : reliable w → next_call_runs w.
Proof.
  unfold reliable, next_call_runs. destruct (faults w) as [|[e|] fs]; simpl;
    [done | | done].
  intros H. by apply Forall_cons in H as [? _].
Qed.

Lemma reliable_tail (fs : list (option errno)) :
  Forall (λ f, f = None) fs → Forall (λ f, f = None) (tail fs).
Proof. destruct fs; simpl; [done |]. by intros [_ ?]%Forall_cons. Qed.

(** What every mutating call does to the world, whatever its outcome. *)
Lemma call_facts (ev : bool → event) (run : tree → tree * option errno) (w : world) :
  (∀ d, keeps_dirs d (run d).1) →
  cwd (Fs.call ev run w).2 = cwd w
  ∧ faults (Fs.call ev run w).2 = tail (faults w)
  ∧ keeps_dirs (disk w) (disk (Fs.call ev run w).2)
  ∧ ∃ ok, trace (Fs.call ev run w).2 = trace w ++ [ev ok]
          ∧ (ok = true ↔ (Fs.call ev run w).1 = Returns tt).
Proof.
  intros Hrun. destruct (next_call_runs_dec w) as [Hok | [e He]].
  - rewrite call_runs by done. specialize (Hrun (disk w)).
    destruct (run (disk w)) as [d [e|]]; simpl in *.
    + repeat split; [done |]. exists false. by split.
    + repeat split; [done |]. exists true. by split.
  - rewrite (call_fails _ _ _ e) by done. simpl.
    repeat split; [apply keeps_dirs_refl |]. exists false. by split.
Qed.

Lemma mkdirp_keeps_all (p : path) (d : tree) :
  keeps_dirs d (mkdirp [] p d).1.
Proof. apply mkdirp_keeps. Qed.

(** After [ensureDir] returns, the directory is there. *)
Lemma ensureDir_returns (p : jpath) (w : world) :
  (Fs.ensureDir p w).1 = Returns tt →
  disk (Fs.ensureDir p w).2 !! segments p = Some Dir.
Proof.
  unfold Fs.ensureDir. destruct (next_call_runs_dec w) as [Hok | [e He]].
  - rewrite call_runs by done.
    destruct (mkdirp [] (segments p) (disk w)) as [d [e|]] eqn:Hmk; [done |].
    intros _. simpl. by apply mkdirp_creates in Hmk.
  - by rewrite (call_fails _ _ _ e).
Qed.

End CallLemmas.

(** ** The template calls *)

Section TemplateLemmas.

Import Tree TreeFacts.

Lemma run_op_facts (projectPath : jpath) (op : template_op) (w : world) :
  cwd (Templates.run_op projectPath op w).2 = cwd w
  ∧ keeps_dirs (disk w) (disk (Templates.run_op projectPath op w).2)
  ∧ ∃ ev, trace (Templates.run_op projectPath op w).2 = trace w ++ [ev]
          ∧ template_event ev.
Proof.
  destruct op as [rel | rel c | rel c]; simpl.
  - destruct (call_facts (EvEnsureDir (NodePath.join (segments projectPath) (js rel)))
                (mkdirp [] (segments (NodePath.join (segments projectPath) (js rel)))) w)
      as (Hc & _ & Hk & ok & Ht & _); [intros d; apply mkdirp_keeps |].
    repeat split; [done | done |]. by eexists.
  - destruct (call_facts (EvWriteJson (NodePath.join (segments projectPath) (js rel)))
                (write (NodePath.join (segments projectPath) (js rel)) c) w)
      as (Hc & _ & Hk & ok & Ht & _); [intros d; apply write_keeps |].
    repeat split; [done | done |]. by eexists.
  - destruct (call_facts (EvWriteFile (NodePath.join (segments projectPath) (js rel)))
                (write (NodePath.join (segments projectPath) (js rel)) c) w)
      as (Hc & _ & Hk & ok & Ht & _); [intros d; apply write_keeps |].
    repeat split; [done | done |]. by eexists.
Qed.

(** A template only adds: the working directory stays, no directory
    goes, and only template events are recorded. *)
Lemma run_facts (projectPath : jpath) (ops : list template_op) (w : world) :
  cwd (Templates.run projectPath ops w).2 = cwd w
  ∧ keeps_dirs (disk w) (disk (Templates.run projectPath ops w).2)
  ∧ ∃ evs, trace (Templates.run projectPath ops w).2 = trace w ++ evs
           ∧ Forall template_event evs.
Proof.
  revert w. induction ops as [|op ops IH]; intros w; simpl.
  - repeat split; [apply keeps_dirs_refl |]. exists []. by rewrite app_nil_r.
  - unfold mbind, M_bind, bind.
    destruct (run_op_facts projectPath op w) as (Hc & Hk & ev & Ht & Hev).
    destruct (Templates.run_op projectPath op w) as [[[]|e] w1]; simpl in *.
    + destruct (IH w1) as (Hc' & Hk' & evs & Ht' & Hevs).
      split; [congruence |]. split; [by eapply keeps_dirs_trans |].
      exists (ev :: evs). split; [| by constructor].
      rewrite Ht', Ht, <- app_assoc. done.
    + repeat split; [done | done |]. exists [ev]. split; [done |].
      by constructor.
Qed.

End TemplateLemmas.

(** ** The two blocks of generateProject *)

Section GeneratorLemmas.

Import Tree TreeFacts.

(** The [catch] block, case by case.  It always ends by throwing the
    error it was given. *)
Lemma generateProject_catch_eq (name : jsstring) (e : error) (w : world) :
  let target := NodePath.join (cwd w) name in
  generateProject_catch name e w =
    if present (disk w) target then
      match head (faults w) with
      | Some (Some _) =>
          (Throws e,
           {| cwd := cwd w; disk := disk w; faults := tail (faults w);
              trace := trace w ++ [EvPathExists target true; EvRemove target false;
                                   EvConsoleWarn CouldNotCleanUp] |})
      | _ =>
          (Throws e,
           {| cwd := cwd w; disk := rmrf (segments target) (disk w);
              faults := tail (faults w);
              trace := trace w ++ [EvPathExists target true; EvRemove target true;
                                   EvConsoleLog CleanedUp] |})
      end
    else
      (Throws e,
       {| cwd := cwd w; disk := disk w; faults := faults w;
          trace := trace w ++ [EvPathExists target false] |}).
Proof.
  intros target. unfold generateProject_catch.
  unfold mbind, M_bind, bind, Process.cwd, Fs.pathExists, try_catch,
    Fs.remove, Fs.call, Console.log, Console.warn, throw, mret, M_ret, ret,
    record. simpl. fold target.
  destruct (present (disk w) target); [| done]. simpl.
  destruct (head (faults w)) as [[f|]|]; simpl;
    by rewrite <- !app_assoc.
Qed.

Lemma generateProject_catch_throws (name : jsstring) (e : error) (w : world) :
  (generateProject_catch name e w).1 = Throws e.
Proof.
  rewrite generateProject_catch_eq.
  destruct (present _ _); [| done]. by destruct (head (faults w)) as [[f|]|].
Qed.

Lemma generateProject_catch_cwd (name : jsstring) (e : error) (w : world) :
  cwd (generateProject_catch name e w).2 = cwd w.
Proof.
  rewrite generateProject_catch_eq.
  destruct (present _ _); [| done]. by destruct (head (faults w)) as [[f|]|].
Qed.

(** The [catch] block creates nothing. *)
Lemma generateProject_catch_nothing_new (name : jsstring) (e : error) (w : world) :
  nothing_new (disk w) (disk (generateProject_catch name e w).2).
Proof.
  rewrite generateProject_catch_eq.
  destruct (present _ _); [| by intros p n].
  destruct (head (faults w)) as [[f|]|]; simpl;
    [by intros p n | apply rmrf_nothing_new ..].
Qed.

(** The [try] block, case by case. *)
Lemma generateProject_try_eq (name kind : jsstring) (w : world) :
  let target := NodePath.join (cwd w) name in
  generateProject_try name kind w =
    match validateProjectName name with
    | Throws e => (Throws e, record (EvValidated name (Throws e)) w)
    | Returns _ =>
        let w1 := record (EvPathExists target (present (disk w) target))
                    (record (EvValidated name (Returns tt)) w) in
        if present (disk w) target
        then (Throws (ErrDirectoryExists name), w1)
        else
          let v := get_template kind in
          let w2 := record (EvResolved kind (negb (falsy v))) w1 in
          if falsy v then (Throws (ErrTemplateNotFound kind), w2)
          else (Fs.ensureDir target;; call_generate v target name) w2
    end.
Proof.
  intros target. unfold generateProject_try.
  unfold mbind at 1. unfold M_bind, bind at 1. unfold validate.
  destruct (validateProjectName name) as [[]|e]; [| done].
  unfold mbind, M_bind, bind, Process.cwd, Fs.pathExists, resolve, throw.
  simpl. fold target.
  destruct (present (disk w) target); [done |].
  by destruct (falsy (get_template kind)).
Qed.

Lemma call_generate_facts (v : js_value) (p : jpath) (name : jsstring) (w : world) :
  cwd (call_generate v p name w).2 = cwd w
  ∧ keeps_dirs (disk w) (disk (call_generate v p name w).2)
  ∧ ∃ evs, trace (call_generate v p name w).2 = trace w ++ evs
           ∧ Forall template_event evs.
Proof.
  destruct v as [|t|key]; simpl.
  - repeat split; [apply keeps_dirs_refl |]. exists []. by rewrite app_nil_r.
  - apply run_facts.
  - repeat split; [apply keeps_dirs_refl |]. exists []. by rewrite app_nil_r.
Qed.

(** Steps 4 and 5 together. *)
Lemma create_and_generate_facts (v : js_value) (p : jpath) (name : jsstring)
    (w : world) :
  let r := (Fs.ensureDir p;; call_generate v p name) w in
  cwd r.2 = cwd w
  ∧ keeps_dirs (disk w) (disk r.2)
  ∧ (∃ ok gen, trace r.2 = trace w ++ EvEnsureDir p ok :: gen
               ∧ Forall template_event gen
               ∧ (ok = false → gen = []))
  ∧ (r.1 = Returns tt → disk r.2 !! segments p = Some Dir).
Proof.
  simpl. unfold mbind, M_bind, bind.
  destruct (call_facts (EvEnsureDir p) (mkdirp [] (segments p)) w)
    as (Hc & _ & Hk & ok & Ht & Hok); [intros d; apply mkdirp_keeps |].
  pose proof (ensureDir_returns p w) as Hdir.
  unfold Fs.ensureDir in *.
  destruct (Fs.call (EvEnsureDir p) (mkdirp [] (segments p)) w)
    as [[[]|e] w1]; simpl in *.
  - destruct (call_generate_facts v p name w1) as (Hc' & Hk' & gen & Ht' & Hgen).
    split; [congruence |]. split; [by eapply keeps_dirs_trans |].
    split.
    + exists ok, gen. rewrite Ht', Ht, <- app_assoc. split; [done |].
      split; [done |]. intros ->. by destruct Hok as [_ Hok]; specialize (Hok eq_refl).
    + intros _. by apply Hk', Hdir.
  - repeat split; [done | done | | done].
    exists ok, []. repeat split; [done | done].
Qed.

Lemma generateProject_try_cwd (name kind : jsstring) (w : world) :
  cwd (generateProject_try name kind w).2 = cwd w.
Proof.
  rewrite generateProject_try_eq.
  destruct (validateProjectName name) as [[]|e]; [| done].
  simpl. destruct (present _ _); [done |].
  destruct (falsy _); [done |].
  match goal with
  | |- cwd (_ ?w0).2 = _ =>
      destruct (create_and_generate_facts (get_template kind)
                  (NodePath.join (cwd w) name) name w0) as (Hc & _)
  end.
  exact Hc.
Qed.

(** The caller sees what the [try] block ended with: its return, or the
    very error it threw. *)
Lemma generateProject_result (name kind : jsstring) (w : world) :
  (generateProject name kind w).1 = (generateProject_try name kind w).1.
Proof.
  unfold generateProject, try_catch.
  destruct (generateProject_try name kind w) as [[[]|e] w1]; [done |].
  apply generateProject_catch_throws.
Qed.

End GeneratorLemmas.

(** ** What the [catch] block does to directories that were there before *)

Section CleanupClaims.

Import Tree TreeFacts NameRules.

(** A name that violates a rule is rejected by [validateProjectName]. *)
Lemma violated_rejected (name : jsstring) :
  violated name →
  ∃ e, validateProjectName name = Throws e ∧ kind_of e = InvalidNameError.
Proof.
  intros Hv. destruct (validateProjectName name) as [[]|e] eqn:Hval.
  - exfalso. apply validateProjectName_returns in Hval
      as (Hne & Htrim & Hlen & Htest & Hdot & Hhyp & Hres).
    apply test_allowed in Htest as [_ Hunits].
    destruct Hv as [Hws | [Hlong | [Hbad | [[Hl | Hl] | Hr]]]].
    + by apply Htrim, trim_nil.
    + lia.
    + apply Exists_exists in Hbad as (c & Hc & Hnot).
      rewrite Forall_forall in Hunits. by apply Hnot, Hunits.
    + apply startsWith_head in Hl. congruence.
    + apply startsWith_head in Hl. congruence.
    + apply reserved_includes in Hr. congruence.
  - exists e. split; [done |]. by eapply validateProjectName_throws_kind.
Qed.

(** The part of C2 that holds: a name that violates a rule makes
    [generateProject] fail with an InvalidNameError, and nothing is
    created. *)
Lemma invalid_name_creates_nothing (name kind : jsstring) (w : world) :
  violated name →
  ∃ e, (generateProject name kind w).1 = Throws e
       ∧ kind_of e = InvalidNameError
       ∧ nothing_new (disk w) (disk (generateProject name kind w).2).
Proof.
  intros (e & Hval & Hkind)%violated_rejected. exists e.
  rewrite generateProject_result.
  unfold generateProject, try_catch.
  rewrite generateProject_try_eq, Hval. simpl.
  split; [done |]. split; [done |].
  apply (generateProject_catch_nothing_new name e
           (record (EvValidated name (Throws e)) w)).
Qed.

(** C1, as the code has it: the directory that was there before the call
    is deleted with all it holds, after the DirectoryExistsError was
    raised and on the way out. *)
Theorem existing_directory_is_deleted :
  let w := Scenario.with_existing_dir in
  let r := generateProject (js "existing-dir") (js "blog") w in
  r.1 = Throws (ErrDirectoryExists (js "existing-dir"))
  ∧ disk w !! (Scenario.work ++ [js "existing-dir"]) = Some Dir
  ∧ disk w !! (Scenario.work ++ [js "existing-dir"; js "notes.txt"])
      = Some (File (Other 1))
  ∧ disk r.2 !! (Scenario.work ++ [js "existing-dir"]) = None
  ∧ disk r.2 !! (Scenario.work ++ [js "existing-dir"; js "notes.txt"]) = None.
Proof. vm_compute. done. Qed.

(** C2, as the code has it: the reserved name "node_modules" is rejected
    with an InvalidNameError, and the node_modules directory of the
    working directory is deleted on the way out. *)
Theorem rejected_name_deletes_directory :
  let w := Scenario.with_node_modules in
  let r := generateProject (js "node_modules") (js "basic") w in
  NameRules.violated (js "node_modules")
  ∧ r.1 = Throws (ErrReservedName (js "node_modules"))
  ∧ disk w !! (Scenario.work ++ [js "node_modules"; js "express"; js "index.js"])
      = Some (File (Other 3))
  ∧ disk r.2 !! (Scenario.work ++ [js "node_modules"]) = None
  ∧ disk r.2 !! (Scenario.work ++ [js "node_modules"; js "express"; js "index.js"])
      = None.
Proof.
  split.
  - do 4 right. unfold reserved, reservedNames. apply Exists_cons_hd.
    unfold same_ignoring_case. eval_js. by repeat constructor.
  - vm_compute. done.
Qed.

End CleanupClaims.

Section EmptyNameClaim.

Import Tree TreeFacts.

Lemma join_empty (base : path) :
  NodePath.join base [] = {| segments := base; trailing_slash := false |}.
Proof. reflexivity. Qed.

Lemma present_is_Some (d : tree) (p : path) :
  present d {| segments := p; trailing_slash := false |} = true ↔ is_Some (d !! p).
Proof.
  unfold present. simpl. destruct (d !! p) as [[|c]|]; simpl.
  - split; [by eexists | done].
  - split; [by eexists | done].
  - split; [done | by intros [? ?]].
Qed.

(** C4: with the empty string as name, validation raises the empty-name
    error; the [catch] block joins the working directory with the empty
    string, which is the working directory itself; as it exists, it is
    removed with all it holds (unless the environment makes the removal
    fail), and then the empty-name error is thrown again. *)
Theorem empty_name_deletes_cwd (kind : jsstring) (w : world) :
  is_Some (disk w !! cwd w) →
  next_call_runs w →
  let here := {| segments := cwd w; trailing_slash := false |} in
  let r := generateProject [] kind w in
  validateProjectName [] = Throws ErrEmptyName
  ∧ NodePath.join (cwd w) [] = here
  ∧ r.1 = Throws ErrEmptyName
  ∧ trace r.2 = trace w ++ [EvValidated [] (Throws ErrEmptyName);
                            EvPathExists here true; EvRemove here true;
                            EvConsoleLog CleanedUp]
  ∧ disk r.2 = rmrf (cwd w) (disk w)
  ∧ ∀ q, disk r.2 !! (cwd w ++ q) = None.
Proof.
  intros Hcwd Hruns here r.
  split; [done |]. split; [done |].
  assert (Hr : r = (Throws ErrEmptyName,
                    {| cwd := cwd w; disk := rmrf (cwd w) (disk w);
                       faults := tail (faults w);
                       trace := trace w ++ [EvValidated [] (Throws ErrEmptyName);
                                            EvPathExists here true;
                                            EvRemove here true;
                                            EvConsoleLog CleanedUp] |})).
  { subst r. unfold generateProject, try_catch.
    rewrite generateProject_try_eq.
    change (validateProjectName []) with (@Throws unit ErrEmptyName).
    cbv beta iota zeta. rewrite generateProject_catch_eq. cbv zeta.
    unfold record. cbn [cwd disk faults trace].
    rewrite join_empty. subst here. cbn [segments].
    apply present_is_Some in Hcwd. rewrite Hcwd.
    unfold next_call_runs in Hruns.
    destruct (head (faults w)) as [[f|]|]; [done | |];
      by rewrite <- app_assoc. }
  rewrite Hr. simpl. repeat split. intros q. apply rmrf_gone.
Qed.

Lemma empty_name_deletes_cwd_witness :
  (generateProject [] (js "basic") Scenario.with_existing_dir).1
    = Throws ErrEmptyName
  ∧ disk (generateProject [] (js "basic") Scenario.with_existing_dir).2
      !! (Scenario.work ++ [js "existing-dir"; js "notes.txt"]) = None.
Proof.
  destruct (empty_name_deletes_cwd (js "basic") Scenario.with_existing_dir)
    as (_ & _ & Hthrows & _ & _ & Hgone).
  - vm_compute. by eexists.
  - vm_compute. done.
  - split; [exact Hthrows | apply Hgone].
Defined.

End EmptyNameClaim.

Section RegistryClaims.

Import Tree TreeFacts.

(** The five keys of the registry. *)
Lemma get_template_own (kind : jsstring) (t : template_kind) :
  get_template kind = VTemplate t →
  kind ∈ [js "basic"; js "chatapp"; js "ecom"; js "blog"; js "aichat"].
Proof.
  unfold get_template. destruct (templates !! kind) as [t'|] eqn:Hk.
  - intros _. unfold templates in Hk.
    apply elem_of_list_to_map_2 in Hk.
    repeat (apply elem_of_cons in Hk as [[= -> _] | Hk]);
      [repeat constructor .. | by apply elem_of_nil in Hk].
  - by case_match.
Qed.

(** A key that is neither in the registry nor on [Object.prototype]: the
    lookup misses, [generateProject] fails with the UnknownTemplateError
    and leaves the tree as it was. *)
Lemma unknown_template_rejected (name kind : jsstring) (w : world) :
  validateProjectName name = Returns tt →
  present (disk w) (NodePath.join (cwd w) name) = false →
  get_template kind = VUndefined →
  (generateProject name kind w).1 = Throws (ErrTemplateNotFound kind)
  ∧ disk (generateProject name kind w).2 = disk w.
Proof.
  intros Hval Habsent Hget.
  unfold generateProject, try_catch.
  rewrite generateProject_try_eq, Hval. simpl. rewrite Habsent, Hget. simpl.
  rewrite generateProject_catch_eq. simpl. by rewrite Habsent.
Qed.

(** C6, as the code has it: "constructor" is not one of the five template
    kinds, yet the lookup finds [Object.prototype.constructor]; the
    project directory is created, the call of [generate] raises a
    TypeError, and that error, not an UnknownTemplateError, reaches the
    caller. *)
Theorem inherited_key_is_not_rejected :
  let w := Scenario.empty_dir in
  let target := NodePath.join (cwd w) (js "ok-app") in
  let r := generateProject (js "ok-app") (js "constructor") w in
  (js "constructor" ∉ [js "basic"; js "chatapp"; js "ecom"; js "blog"; js "aichat"])
  ∧ validateProjectName (js "ok-app") = Returns tt
  ∧ present (disk w) target = false
  ∧ get_template (js "constructor") = VInherited (js "constructor")
  ∧ r.1 = Throws TypeErrorNotAFunction
  ∧ kind_of TypeErrorNotAFunction ≠ UnknownTemplateError
  ∧ trace r.2 = [EvValidated (js "ok-app") (Returns tt);
                 EvPathExists target false;
                 EvResolved (js "constructor") true;
                 EvEnsureDir target true;
                 EvPathExists target true;
                 EvRemove target true;
                 EvConsoleLog CleanedUp].
Proof.
  split.
  - intros H. repeat (apply elem_of_cons in H as [H | H]; [by vm_compute in H |]).
    by apply elem_of_nil in H.
  - vm_compute. done.
Qed.

End RegistryClaims.

(** ** Failure of the template, and calling twice *)

Section RollbackClaims.

Import Tree TreeFacts.

(** The [try] block is steps 1 to 4 followed by the call of the
    template. *)
Lemma generateProject_try_split (name kind : jsstring) (w : world) :
  generateProject_try name kind w =
    (r ← steps_1_to_4 name kind; call_generate r.1 r.2 name) w.
Proof.
  unfold generateProject_try, steps_1_to_4.
  unfold mbind, M_bind, bind, validate, Process.cwd, Fs.pathExists, resolve,
    throw, mret, M_ret, ret.
  destruct (validateProjectName name) as [[]|e]; [| done].
  cbn [record cwd disk faults trace].
  destruct (present (disk w) (NodePath.join (cwd w) name)); [done |].
  destruct (falsy (get_template kind)); [done |].
  by destruct (Fs.ensureDir _ _) as [[[]|e] w1].
Qed.

(** What steps 1 to 4 returning means. *)
Lemma steps_1_to_4_returns (name kind : jsstring) (w : world)
    (v : js_value) (p : jpath) :
  (steps_1_to_4 name kind w).1 = Returns (v, p) →
  validateProjectName name = Returns tt
  ∧ p = NodePath.join (cwd w) name
  ∧ present (disk w) p = false
  ∧ v = get_template kind
  ∧ falsy v = false
  ∧ cwd (steps_1_to_4 name kind w).2 = cwd w
  ∧ disk (steps_1_to_4 name kind w).2 !! segments p = Some Dir.
Proof.
  unfold steps_1_to_4.
  unfold mbind, M_bind, bind, validate, Process.cwd, Fs.pathExists, resolve,
    throw, mret, M_ret, ret.
  destruct (validateProjectName name) as [[]|e]; [| done].
  cbn [record cwd disk faults trace].
  destruct (present (disk w) (NodePath.join (cwd w) name)) eqn:Hp; [done |].
  destruct (falsy (get_template kind)) eqn:Hf; [done |].
  match goal with
  | |- context [Fs.ensureDir ?q ?w0] =>
      pose proof (ensureDir_returns q w0) as Hdir;
      destruct (call_facts (EvEnsureDir q) (mkdirp [] (segments q)) w0)
        as (Hc & _); [intros d; apply mkdirp_keeps |];
      fold (Fs.ensureDir q) in Hc;
      destruct (Fs.ensureDir q w0) as [[[]|e] w1]; [| done]
  end.
  simpl in *. intros [= <- <-]. repeat split; try done. by apply Hdir.
Qed.

(** C3, as the code has it: when steps 1 to 4 went through and the
    template's [generate] raises, the caller sees that very error; and
    when the removal that follows is not made to fail by the
    environment, the project directory and all that was written below
    it are gone afterward. *)
Theorem template_failure_rolls_back (name kind : jsstring) (w : world)
    (t : template_kind) (p : jpath) (e : error) :
  (steps_1_to_4 name kind w).1 = Returns (VTemplate t, p) →
  (Templates.generate t p name (steps_1_to_4 name kind w).2).1 = Throws e →
  (generateProject name kind w).1 = Throws e
  ∧ (next_call_runs (Templates.generate t p name (steps_1_to_4 name kind w).2).2 →
     ∀ q, disk (generateProject name kind w).2 !! (segments p ++ q) = None).
Proof.
  intros Hpre Hgen.
  pose proof (steps_1_to_4_returns _ _ _ _ _ Hpre)
    as (_ & Hp & _ & _ & _ & Hcwd & Hdir).
  split.
  - rewrite generateProject_result, generateProject_try_split.
    unfold mbind, M_bind, bind.
    destruct (steps_1_to_4 name kind w) as [[[v p']|e'] w4]; [| done].
    simpl in *. by injection Hpre as -> ->.
  - intros Hruns q. unfold generateProject, try_catch.
    rewrite generateProject_try_split. unfold mbind, M_bind, bind.
    destruct (steps_1_to_4 name kind w) as [[[v p']|e'] w4]; [| done].
    simpl in *. injection Hpre as -> ->. simpl.
    destruct (run_facts p (Templates.calls t name) w4) as (Hcwd' & Hkeep & _).
    unfold Templates.generate in *.
    destruct (Templates.run p (Templates.calls t name) w4) as [[[]|e'] w5];
      [done |].
    simpl in *. injection Hgen as ->.
    rewrite generateProject_catch_eq. cbv zeta.
    rewrite Hcwd', Hcwd, <- Hp.
    assert (Hpres : present (disk w5) p = true).
    { unfold present. by rewrite (Hkeep _ Hdir). }
    rewrite Hpres. unfold next_call_runs in Hruns.
    destruct (head (faults w5)) as [[f|]|]; [done | |]; simpl; apply rmrf_gone.
Qed.

Lemma template_failure_rolls_back_witness :
  (generateProject (js "broken") (js "ecom") Scenario.disk_fills_up).1
    = Throws (FsError ENOSPC)
  ∧ disk (generateProject (js "broken") (js "ecom") Scenario.disk_fills_up).2
      !! (Scenario.work ++ [js "broken"]) = None.
Proof.
  destruct (template_failure_rolls_back (js "broken") (js "ecom")
              Scenario.disk_fills_up ecom
              (NodePath.join Scenario.work (js "broken")) (FsError ENOSPC))
    as [Hthrows Hgone].
  - vm_compute. reflexivity.
  - vm_compute. reflexivity.
  - split; [exact Hthrows |].
    specialize (Hgone ltac:(vm_compute; exact I) []).
    by rewrite app_nil_r in Hgone.
Defined.

(** C3, as stated, fails: the disk fills up while ecom's [generate]
    writes its fourth file (package.json, server.js and .env are
    written, README.md is not), and the removal of the directory fails
    too.  The caller sees the error of the template, and the directory
    is still there with the three files. *)
Lemma rollback_can_fail :
  let w := Scenario.disk_fills_up_and_stays_busy in
  let p := NodePath.join (cwd w) (js "broken") in
  let r := generateProject (js "broken") (js "ecom") w in
  (steps_1_to_4 (js "broken") (js "ecom") w).1 = Returns (VTemplate ecom, p)
  ∧ (Templates.generate ecom p (js "broken")
       (steps_1_to_4 (js "broken") (js "ecom") w).2).1 = Throws (FsError ENOSPC)
  ∧ r.1 = Throws (FsError ENOSPC)
  ∧ present (disk r.2) p = true
  ∧ disk r.2 !! (segments p ++ [js "package.json"])
      = Some (File (PackageJson ecom (js "broken")))
  ∧ disk r.2 !! (segments p ++ [js ".env"]) = Some (File (Constant ecom "envFile"))
  ∧ disk r.2 !! (segments p ++ [js "README.md"]) = None
  ∧ last (trace r.2) = Some (EvConsoleWarn CouldNotCleanUp).
Proof. vm_compute. done. Qed.

(** C7: when a call of [generateProject] succeeds, a second call with
    the same name right after it, whatever the template, fails with the
    DirectoryExistsError. *)
Theorem second_call_fails (name kind kind' : jsstring) (w : world) :
  (generateProject name kind w).1 = Returns tt →
  (generateProject name kind' (generateProject name kind w).2).1
    = Throws (ErrDirectoryExists name).
Proof.
  intros Hok.
  assert (Hfirst : validateProjectName name = Returns tt
                   ∧ cwd (generateProject name kind w).2 = cwd w
                   ∧ disk (generateProject name kind w).2
                       !! segments (NodePath.join (cwd w) name) = Some Dir).
  { revert Hok. unfold generateProject, try_catch.
    pose proof (generateProject_catch_throws name) as Hcatch.
    rewrite generateProject_try_split. unfold mbind, M_bind, bind.
    destruct (steps_1_to_4 name kind w) as [[[v p]|e] w4] eqn:Hpre.
    - pose proof (steps_1_to_4_returns name kind w v p) as Hsteps.
      rewrite Hpre in Hsteps.
      destruct (Hsteps eq_refl) as (Hval & -> & _ & _ & _ & Hcwd & Hdir).
      destruct (call_generate_facts v (NodePath.join (cwd w) name) name w4)
        as (Hcwd' & Hkeep & _).
      simpl in *.
      destruct (call_generate v _ name w4) as [[[]|e] w5].
      + intros _. simpl in *. repeat split; [done | congruence | by apply Hkeep].
      + intros H. by rewrite Hcatch in H.
    - intros H. by rewrite Hcatch in H. }
  destruct Hfirst as (Hval & Hcwd & Hdir).
  rewrite generateProject_result, generateProject_try_eq, Hval. cbv zeta.
  rewrite Hcwd. unfold present at 1. by rewrite Hdir.
Qed.

Lemma second_call_fails_witness :
  (generateProject (js "my-app") (js "blog")
     (generateProject (js "my-app") (js "basic") Scenario.empty_dir).2).1
    = Throws (ErrDirectoryExists (js "my-app")).
Proof.
  apply (second_call_fails (js "my-app") (js "basic") (js "blog")
           Scenario.empty_dir).
  vm_compute. reflexivity.
Defined.

End RollbackClaims.

(** ** The order of the steps *)

Section OrderClaim.

Import Tree TreeFacts.

Lemma generateProject_catch_trace (name : jsstring) (e : error) (w : world) :
  ∃ cleanup, trace (generateProject_catch name e w).2 = trace w ++ cleanup
             ∧ Forall cleanup_event cleanup.
Proof.
  rewrite generateProject_catch_eq. cbv zeta.
  destruct (present _ _); [destruct (head (faults w)) as [[f|]|] |];
    simpl; eexists; (split; [reflexivity | by repeat constructor]).
Qed.

(** The events of the [try] block: the three checks in their order, each
    reached only when the one before it passed, then the creation of the
    project directory, then the calls of the template. *)
Lemma generateProject_try_trace (name kind : jsstring) (w : world) :
  let target := NodePath.join (cwd w) name in
  ∃ steps, trace (generateProject_try name kind w).2 = trace w ++ steps
    ∧ ((∃ e, steps = [EvValidated name (Throws e)])
       ∨ steps = [EvValidated name (Returns tt); EvPathExists target true]
       ∨ steps = [EvValidated name (Returns tt); EvPathExists target false;
                  EvResolved kind false]
       ∨ ∃ ok gen,
           steps = [EvValidated name (Returns tt); EvPathExists target false;
                    EvResolved kind true; EvEnsureDir target ok] ++ gen
           ∧ Forall template_event gen
           ∧ (ok = false → gen = [])).
Proof.
  intros target. rewrite generateProject_try_eq. fold target.
  destruct (validateProjectName name) as [[]|e].
  - cbv zeta. destruct (present (disk w) target).
    + eexists. split; [simpl; by rewrite <- app_assoc |]. right. by left.
    + destruct (falsy (get_template kind)).
      * eexists. split; [simpl; by rewrite <- !app_assoc |].
        right. right. by left.
      * match goal with
        | |- context [(Fs.ensureDir ?p;; call_generate ?v ?p ?n) ?w0] =>
            destruct (create_and_generate_facts v p n w0)
              as (_ & _ & (ok & gen & Ht & Hgen & Hok) & _)
        end.
        exists ([EvValidated name (Returns tt); EvPathExists target false;
                 EvResolved kind true; EvEnsureDir target ok] ++ gen).
        split.
        -- rewrite Ht. simpl. by rewrite <- !app_assoc.
        -- do 3 right. by exists ok, gen.
  - eexists. split; [reflexivity |]. left. by eexists.
Qed.

(** C8: in every run the steps come in one order: validation, existence
    check of the target path, lookup in the registry, creation of the
    target directory, generation by the template; a step is reached only
    when the one before it passed, and what follows a failure is the
    cleanup alone.  In particular the target directory is created, if at
    all, after validation passed, the path was found absent and the
    lookup found a value. *)
Theorem generateProject_step_order (name kind : jsstring) (w : world) :
  let target := NodePath.join (cwd w) name in
  ∃ steps cleanup,
    trace (generateProject name kind w).2 = trace w ++ steps ++ cleanup
    ∧ Forall cleanup_event cleanup
    ∧ ((∃ e, steps = [EvValidated name (Throws e)])
       ∨ steps = [EvValidated name (Returns tt); EvPathExists target true]
       ∨ steps = [EvValidated name (Returns tt); EvPathExists target false;
                  EvResolved kind false]
       ∨ ∃ ok gen,
           steps = [EvValidated name (Returns tt); EvPathExists target false;
                    EvResolved kind true; EvEnsureDir target ok] ++ gen
           ∧ Forall template_event gen
           ∧ (ok = false → gen = []))
    ∧ ∀ i ok, (steps ++ cleanup) !! i = Some (EvEnsureDir target ok) →
        (3 ≤ i)%nat
        ∧ take 3 (steps ++ cleanup) =
            [EvValidated name (Returns tt); EvPathExists target false;
             EvResolved kind true].
Proof.
  intros target.
  destruct (generateProject_try_trace name kind w) as (steps & Ht & Hshape).
  fold target in Hshape.
  assert (∃ cleanup,
            trace (generateProject name kind w).2 = trace w ++ steps ++ cleanup
            ∧ Forall cleanup_event cleanup) as (cleanup & Htrace & Hclean).
  { unfold generateProject, try_catch.
    destruct (generateProject_try name kind w) as [[[]|e] w1]; simpl in *.
    - exists []. by rewrite app_nil_r.
    - destruct (generateProject_catch_trace name e w1) as (cl & Hcl & Hev).
      exists cl. by rewrite Hcl, Ht, <- app_assoc. }
  exists steps, cleanup. split; [done |]. split; [done |]. split; [done |].
  intros i ok Hi.
  assert (Hnot : ∀ j, cleanup !! j ≠ Some (EvEnsureDir target ok)).
  { intros j Hj. rewrite Forall_lookup in Hclean. by apply Hclean in Hj. }
  destruct Hshape as [[e ->] | [-> | [-> | (ok' & gen & -> & _ & _)]]].
  - destruct i as [|i]; [done |]. by apply Hnot in Hi.
  - destruct i as [|[|i]]; [done | done |]. by apply Hnot in Hi.
  - destruct i as [|[|[|i]]]; [done | done | done |]. by apply Hnot in Hi.
  - destruct i as [|[|[|i]]]; [done | done | done |]. split; [lia | done].
Qed.

Lemma generateProject_step_order_witness :
  take 3 (trace (generateProject (js "my-app") (js "basic") Scenario.empty_dir).2)
  = [EvValidated (js "my-app") (Returns tt);
     EvPathExists (NodePath.join Scenario.work (js "my-app")) false;
     EvResolved (js "basic") true].
Proof.
  destruct (generateProject_step_order (js "my-app") (js "basic")
              Scenario.empty_dir) as (steps & cleanup & Ht & _ & _ & Hidx).
  cbn [Scenario.empty_dir cwd trace app] in Ht, Hidx.
  rewrite <- Ht in Hidx. apply (Hidx 3%nat true). vm_compute. reflexivity.
Defined.

End OrderClaim.

(** ** A template in a fresh directory *)

Section Simulation.

Import Tree TreeFacts.

Lemma foldl_normalize_below (base acc : path) (segs : list jsstring) :
  forallb (λ seg, negb (bool_decide (seg = [0x2E; 0x2E]))) segs = true →
  foldl normalize_step (base ++ acc) segs = base ++ foldl normalize_step acc segs.
Proof.
  revert acc. induction segs as [|seg segs IH]; intros acc; simpl; [done |].
  intros [Hseg Hsegs]%andb_true_iff.
  unfold normalize_step at 2 4.
  destruct (bool_decide (seg = [])); [by apply IH |].
  destruct (bool_decide (seg = [0x2E])); [by apply IH |].
  destruct (bool_decide (seg = [0x2E; 0x2E])); [done |].
  rewrite <- app_assoc. by apply IH.
Qed.

(** Joining a literal without ".." onto the project path stays below
    it. *)
Lemma join_below (base : path) (rel : string) :
  Relative.no_dotdot rel = true →
  NodePath.join base (js rel) =
    {| segments := base ++ segments (NodePath.join [] (js rel));
       trailing_slash := trailing_slash (NodePath.join [] (js rel)) |}.
Proof.
  intros H. unfold NodePath.join. simpl. f_equal.
  rewrite <- (app_nil_r base) at 1. by apply foldl_normalize_below.
Qed.

Lemma subtree_insert (base q : path) (n : node) (d t : tree) :
  subtree_is base d t → subtree_is base (<[base ++ q := n]> d) (<[q := n]> t).
Proof.
  intros H q'. rewrite !lookup_insert.
  destruct (decide (q = q')) as [-> | Hne].
  - by rewrite decide_True.
  - rewrite decide_False; [apply H |]. by intros ?%app_inv_head.
Qed.

Lemma outside_insert (base q p : path) (n : node) (d : tree) :
  ¬ base `prefix_of` p → <[base ++ q := n]> d !! p = d !! p.
Proof.
  intros Hp. apply lookup_insert_ne. intros <-. apply Hp. by apply prefix_app_r.
Qed.

Lemma mkdirp_sim (base seen : path) (todo : list jsstring) (d t : tree) :
  subtree_is base d t →
  (mkdirp (base ++ seen) todo d).2 = (mkdirp seen todo t).2
  ∧ subtree_is base (mkdirp (base ++ seen) todo d).1 (mkdirp seen todo t).1
  ∧ ∀ p, ¬ base `prefix_of` p → (mkdirp (base ++ seen) todo d).1 !! p = d !! p.
Proof.
  revert seen d t. induction todo as [|s todo IH]; intros seen d t Hsub; simpl.
  - rewrite (Hsub seen).
    destruct (t !! seen) as [[|c]|]; simpl; [done | done |].
    repeat split; [by apply subtree_insert | by intros; apply outside_insert].
  - rewrite (Hsub seen).
    destruct (t !! seen) as [[|c]|]; simpl.
    + rewrite <- app_assoc. by apply IH.
    + done.
    + rewrite <- app_assoc.
      destruct (IH (seen ++ [s]) (<[base ++ seen := Dir]> d) (<[seen := Dir]> t))
        as (Hr & Hs & Ho); [by apply subtree_insert |].
      repeat split; [done | done |].
      intros p Hp. rewrite Ho by done. by apply outside_insert.
Qed.

Lemma write_sim (base q : path) (b : bool) (c : payload) (d t : tree) :
  chain d base → subtree_is base d t →
  let r := write {| segments := base ++ q; trailing_slash := b |} c d in
  let r' := write {| segments := q; trailing_slash := b |} c t in
  r.2 = r'.2
  ∧ subtree_is base r.1 r'.1
  ∧ ∀ p, ¬ base `prefix_of` p → r.1 !! p = d !! p.
Proof.
  intros Hchain Hsub. unfold write. simpl.
  destruct q as [|x q].
  - rewrite app_nil_r. destruct base as [|y base'] eqn:Hb; [done |].
    rewrite (Hchain (removelast (y :: base'))), (Hchain (y :: base'));
      [done | done |].
    rewrite (app_removelast_last [] (l := y :: base')) at 2 by done.
    by apply prefix_app_r.
  - destruct (base ++ x :: q) as [|y l] eqn:Hl.
    { by apply app_eq_nil in Hl as [_ ?]. }
    rewrite <- Hl. rewrite removelast_app by done.
    rewrite (Hsub (removelast (x :: q))), (Hsub (x :: q)).
    destruct (t !! removelast (x :: q)) as [[|c']|]; [| done | done].
    destruct (t !! (x :: q)) as [[|c']|]; [done | |];
      (destruct b; [done |]; simpl;
       repeat split; [by apply subtree_insert | by intros; apply outside_insert]).
Qed.

End Simulation.

Section FreshDirectory.

Import Tree TreeFacts.

Lemma chain_keeps (d d' : tree) (p : path) :
  chain d p → keeps_dirs d d' → chain d' p.
Proof. intros Hc Hk q Hq. by apply Hk, Hc. Qed.

Lemma prefix_snoc_cases (q p : path) (s : jsstring) :
  q `prefix_of` p ++ [s] → q = p ++ [s] ∨ q `prefix_of` p.
Proof.
  intros [k Hk]. destruct k as [|x k _] using rev_ind.
  - left. by rewrite app_nil_r in Hk.
  - right. rewrite app_assoc in Hk. apply app_inj_tail in Hk as [-> _].
    by apply prefix_app_r.
Qed.

(** One call of a template against the same call on the subtree. *)
Lemma run_op_sim (base : path) (b : bool) (op : template_op) (w : world) (t : tree) :
  Relative.stays_below op = true →
  chain (disk w) base → subtree_is base (disk w) t → reliable w →
  let r := Templates.run_op {| segments := base; trailing_slash := b |} op w in
  reliable r.2
  ∧ subtree_is base (disk r.2) (Relative.step op t).1
  ∧ (∀ p, ¬ base `prefix_of` p → disk r.2 !! p = disk w !! p)
  ∧ ((Relative.step op t).2 = None → r.1 = Returns tt).
Proof.
  intros Hbelow Hchain Hsub Hrel.
  assert (Hruns := reliable_next w Hrel).
  assert (Htail := reliable_tail _ Hrel).
  destruct op as [rel | rel c | rel c]; simpl in *;
    rewrite (join_below base rel Hbelow).
  - unfold Fs.ensureDir. rewrite call_runs by done. cbn [segments].
    rewrite mkdirp_below by done.
    destruct (mkdirp_sim base [] (segments (NodePath.join [] (js rel)))
                (disk w) t Hsub) as (Hr & Hs & Ho).
    rewrite app_nil_r in *.
    destruct (mkdirp base _ (disk w)) as [d' [e|]];
      destruct (mkdirp [] _ t) as [t' [e'|]]; simpl in *; try done.
  - unfold Fs.writeJson. rewrite call_runs by done.
    destruct (write_sim base (segments (NodePath.join [] (js rel)))
                (trailing_slash (NodePath.join [] (js rel))) c
                (disk w) t Hchain Hsub) as (Hr & Hs & Ho).
    change {| segments := segments (NodePath.join [] (js rel));
              trailing_slash := trailing_slash (NodePath.join [] (js rel)) |}
      with (NodePath.join [] (js rel)) in *.
    destruct (write {| segments := base ++ _; trailing_slash := _ |} c (disk w))
      as [d' [e|]];
      destruct (write (NodePath.join [] (js rel)) c t) as [t' [e'|]];
      simpl in *; try done.
  - unfold Fs.writeFile. rewrite call_runs by done.
    destruct (write_sim base (segments (NodePath.join [] (js rel)))
                (trailing_slash (NodePath.join [] (js rel))) c
                (disk w) t Hchain Hsub) as (Hr & Hs & Ho).
    change {| segments := segments (NodePath.join [] (js rel));
              trailing_slash := trailing_slash (NodePath.join [] (js rel)) |}
      with (NodePath.join [] (js rel)) in *.
    destruct (write {| segments := base ++ _; trailing_slash := _ |} c (disk w))
      as [d' [e|]];
      destruct (write (NodePath.join [] (js rel)) c t) as [t' [e'|]];
      simpl in *; try done.
Qed.

(** When the calls of a template go through on the subtree, they go
    through on the disk (if the environment fails no call), they leave
    below the project directory what they leave in the subtree, and they
    touch nothing outside it. *)
Lemma run_sim (base : path) (b : bool) (ops : list template_op) (w : world) (t : tree) :
  forallb Relative.stays_below ops = true →
  chain (disk w) base → subtree_is base (disk w) t → reliable w →
  is_Some (Relative.run ops t) →
  let r := Templates.run {| segments := base; trailing_slash := b |} ops w in
  r.1 = Returns tt
  ∧ (∀ q, disk r.2 !! (base ++ q) = Relative.run ops t ≫= (λ t', t' !! q))
  ∧ (∀ p, ¬ base `prefix_of` p → disk r.2 !! p = disk w !! p).
Proof.
  revert w t. induction ops as [|op ops IH]; intros w t Hbelow Hchain Hsub Hrel Hsome.
  - simpl. repeat split. intros q. apply Hsub.
  - simpl in Hbelow. apply andb_true_iff in Hbelow as [Hop Hops].
    destruct (run_op_sim base b op w t Hop Hchain Hsub Hrel)
      as (Hrel1 & Hsub1 & Hout1 & Hret1).
    destruct (run_op_facts {| segments := base; trailing_slash := b |} op w)
      as (_ & Hkeep & _).
    simpl in *. unfold mbind, M_bind, bind.
    destruct (Relative.step op t) as [t1 [e|]]; [by destruct Hsome |].
    simpl in *. specialize (Hret1 eq_refl).
    destruct (Templates.run_op _ op w) as [[[]|e] w1]; [| done]. simpl in *.
    destruct (IH w1 t1 Hops (chain_keeps _ _ _ Hchain Hkeep) Hsub1 Hrel1 Hsome)
      as (Hr & Hq & Hp).
    repeat split; [done | done |]. intros p Hpre.
    by rewrite Hp, Hout1.
Qed.

End FreshDirectory.

Section BasicProjectClaim.

Import Tree TreeFacts.

Lemma chain_snoc (d : tree) (p : path) (s : jsstring) :
  chain d p → chain (<[p ++ [s] := Dir]> d) (p ++ [s]).
Proof.
  intros Hc q [-> | Hq]%prefix_snoc_cases; [apply lookup_insert_eq |].
  rewrite lookup_insert_ne; [by apply Hc |].
  intros <-. by apply prefix_snoc_not in Hq.
Qed.

(** A directory that was just created in a well-formed tree is empty. *)
Lemma fresh_subtree (d : tree) (p : path) :
  wf d → d !! p = None → subtree_is p (<[p := Dir]> d) {[ [] := Dir ]}.
Proof.
  intros Hwf Hp q. destruct q as [|x q].
  - by rewrite app_nil_r, lookup_insert_eq, lookup_singleton_eq.
  - rewrite lookup_insert_ne, lookup_singleton_ne; [| done |].
    + by apply wf_absent.
    + intros H. apply (f_equal length) in H. rewrite length_app in H.
      simpl in H. lia.
Qed.

(** C9: [generateProject("my-app", "basic")] in a working directory
    that has no my-app succeeds (on a file system that fails no call);
    afterward my-app/ is a directory and holds the manifest package.json
    and the entry point index.js; nothing outside my-app/ has changed. *)
Theorem basic_project_generated (w : world) :
  wf (disk w) →
  disk w !! cwd w = Some Dir →
  disk w !! (cwd w ++ [js "my-app"]) = None →
  reliable w →
  let r := generateProject (js "my-app") (js "basic") w in
  r.1 = Returns tt
  ∧ disk r.2 !! (cwd w ++ [js "my-app"]) = Some Dir
  ∧ disk r.2 !! (cwd w ++ [js "my-app"; js "package.json"])
      = Some (File (PackageJson basic (js "my-app")))
  ∧ disk r.2 !! (cwd w ++ [js "my-app"; js "index.js"])
      = Some (File (Constant basic "indexJs"))
  ∧ ∀ p, ¬ (cwd w ++ [js "my-app"]) `prefix_of` p → disk r.2 !! p = disk w !! p.
Proof.
  intros Hwf Hcwd Hfresh Hrel r.
  set (target := cwd w ++ [js "my-app"]).
  assert (Hjoin : NodePath.join (cwd w) (js "my-app")
                  = {| segments := target; trailing_slash := false |}).
  { by rewrite (join_below (cwd w) "my-app"). }
  assert (Hval : validateProjectName (js "my-app") = Returns tt)
    by (vm_compute; reflexivity).
  assert (Hget : get_template (js "basic") = VTemplate basic)
    by (vm_compute; reflexivity).
  assert (Hchain : chain (disk w) (cwd w)) by by apply wf_chain.
  assert (∃ w5, r = (Returns tt, w5)
            ∧ (∀ q, disk w5 !! (target ++ q) =
                      Relative.run (Templates.calls basic (js "my-app"))
                        {[ [] := Dir ]} ≫= (λ t', t' !! q))
            ∧ (∀ p, ¬ target `prefix_of` p → disk w5 !! p = disk w !! p))
    as (w5 & -> & Hbelow & Hout).
  { subst r. unfold generateProject, try_catch.
    rewrite generateProject_try_eq, Hval, Hjoin. cbv zeta.
    unfold present. cbn [segments]. fold target in Hfresh. rewrite Hfresh, Hget.
    cbn [falsy negb].
    unfold mbind, M_bind, bind, Fs.ensureDir.
    rewrite call_runs by (by apply reliable_next).
    unfold record. cbn [cwd disk faults trace segments].
    unfold target at 1. rewrite mkdirp_below by done.
    cbn [mkdirp]. rewrite Hcwd. fold target. rewrite Hfresh.
    cbn [call_generate]. unfold Templates.generate.
    match goal with
    | |- context [Templates.run ?p ?ops ?w3] =>
        destruct (run_sim target false ops w3 {[ [] := Dir ]})
          as (Hret & Hbelow & Hout)
    end.
    - vm_compute. reflexivity.
    - by apply chain_snoc.
    - by apply fresh_subtree.
    - by apply reliable_tail.
    - apply (bool_decide_unpack (is_Some _)). vm_compute. exact I.
    - destruct (Templates.run _ _ _) as [[[]|e] w5];
        cbn [fst snd] in Hret, Hbelow, Hout |- *; [| done].
      exists w5. split; [done |]. split; [done |].
      intros p Hp. rewrite Hout by done. cbn [disk]. apply lookup_insert_ne.
      intros <-. by apply Hp. }
  cbn [fst snd].
  split; [done |].
  split; [rewrite <- (app_nil_r target), Hbelow; vm_compute; reflexivity |].
  split.
  { replace (cwd w ++ [js "my-app"; js "package.json"])
      with (target ++ [js "package.json"])
      by (unfold target; by rewrite <- app_assoc).
    rewrite Hbelow. vm_compute. reflexivity. }
  split; [| done].
  replace (cwd w ++ [js "my-app"; js "index.js"])
    with (target ++ [js "index.js"])
    by (unfold target; by rewrite <- app_assoc).
  rewrite Hbelow. vm_compute. reflexivity.
Qed.

Lemma basic_project_generated_witness :
  (generateProject (js "my-app") (js "basic") Scenario.empty_dir).1 = Returns tt
  ∧ disk (generateProject (js "my-app") (js "basic") Scenario.empty_dir).2
      !! (Scenario.work ++ [js "my-app"; js "package.json"])
      = Some (File (PackageJson basic (js "my-app"))).
Proof.
  destruct (basic_project_generated Scenario.empty_dir)
    as (Hret & _ & Hmanifest & _).
  - apply wf_check_sound. vm_compute. reflexivity.
  - vm_compute. reflexivity.
  - vm_compute. reflexivity.
  - constructor.
  - split; [exact Hret | exact Hmanifest].
Defined.

End BasicProjectClaim.


(** * Further properties *)

(** ** validateProjectName, check by check *)

#[local] Set Warnings "-clear-no-such-hyp".

Section ValidationOrder.

Import JsString NameRules.

Lemma first_check_white (name : jsstring) :
  bool_decide (name = []) || (length (trim name) =? 0)%nat = true
  ↔ Forall (λ c, is_white_space c = true) name.
Proof.
  rewrite orb_true_iff, bool_decide_eq_true, Nat.eqb_eq, <- trim_nil. split.
  - intros [-> | H]; [done |]. by destruct (trim name).
  - intros ->. by right.
Qed.

(** A lower-cased name without a dot that is reserved is "node_modules". *)
Lemma reserved_without_dot (name : jsstring) :
  Forall allowed_unit name →
  includes reservedNames (toLowerCase name) = true
  ↔ toLowerCase name = js "node_modules".
Proof.
  intros Hunits. rewrite includes_elem_of. unfold reservedNames. split.
  - intros [H | H]%elem_of_cons; [done | exfalso].
    assert (Hdot : 0x2E ∈ toLowerCase name).
    { repeat (apply elem_of_cons in H as [-> | H]);
        [vm_compute; repeat constructor .. | by apply elem_of_nil in H]. }
    unfold toLowerCase in Hdot. apply list_elem_of_fmap in Hdot as (x & Hx & Hin).
    symmetry in Hx. apply lower_unit_dot in Hx. subst x.
    rewrite Forall_forall in Hunits. specialize (Hunits _ Hin).
    unfold allowed_unit in Hunits. lia.
  - intros ->. constructor.
Qed.

(** The checks of [validateProjectName] in their order: which of the six
    outcomes a name gets. *)
Lemma validateProjectName_cases (name : jsstring) :
  let white := Forall (λ c, is_white_space c = true) name in
  (white ∧ validateProjectName name = Throws ErrEmptyName)
  ∨ (¬ white ∧ (214 < length name)%nat
     ∧ validateProjectName name = Throws ErrNameTooLong)
  ∨ (¬ white ∧ (length name ≤ 214)%nat ∧ ¬ Forall allowed_unit name
     ∧ validateProjectName name = Throws ErrInvalidCharacters)
  ∨ (Forall allowed_unit name ∧ (1 ≤ length name ≤ 214)%nat
     ∧ ((head name = Some 0x2D
         ∧ validateProjectName name = Throws ErrLeadingDotOrHyphen)
        ∨ (head name ≠ Some 0x2D ∧ toLowerCase name = js "node_modules"
           ∧ validateProjectName name = Throws (ErrReservedName name))
        ∨ (head name ≠ Some 0x2D ∧ toLowerCase name ≠ js "node_modules"
           ∧ validateProjectName name = Returns tt))).
Proof.
  intros white. unfold validateProjectName.
  destruct (bool_decide (name = []) || (length (trim name) =? 0)%nat) eqn:Hfirst.
  { left. by apply first_check_white in Hfirst. }
  assert (Hnw : ¬ white).
  { intros Hw%first_check_white. congruence. }
  assert (Hne : name ≠ []) by (intros ->; apply Hnw; constructor).
  right. destruct (Nat.ltb_spec 214 (length name)) as [Hlong | Hlen].
  { by left. }
  right. destruct (Regex.test name) eqn:Htest; simpl.
  2:{ left. repeat split; [done | done |]. intros Hunits.
      assert (Regex.test name = true) by by apply test_allowed. congruence. }
  right. apply test_allowed in Htest as [_ Hunits].
  split; [done |]. split.
  { destruct name; [done | simpl in *; lia]. }
  assert (Hnodot : startsWith name 0x2E = false).
  { apply not_true_is_false. rewrite startsWith_head. intros Hh.
    destruct name as [|c name]; [done |]. injection Hh as ->.
    apply Forall_cons in Hunits as [Hc _]. unfold allowed_unit in Hc. lia. }
  rewrite Hnodot. simpl.
  destruct (startsWith name 0x2D) eqn:Hhyp.
  { left. by apply startsWith_head in Hhyp. }
  assert (Hh : head name ≠ Some 0x2D).
  { intros Hh%startsWith_head. congruence. }
  right.
  destruct (includes reservedNames (toLowerCase name)) eqn:Hinc.
  - left. by apply reserved_without_dot in Hinc.
  - right. split; [done |]. split; [| done].
    intros Hlow%reserved_without_dot; [congruence | done].
Qed.

(** X1: a name that [validateProjectName] lets through is valid: its
    units are letters, digits, '-' or '_', its length is 1 to 214, it does
    not start with '.' or '-', and it is no reserved name in any case. *)
Theorem validateProjectName_returns_valid (name : jsstring) :
  validateProjectName name = Returns tt → valid name.
Proof.
  intros Hret.
  destruct (validateProjectName_cases name)
    as [[_ H] | [(_ & _ & H) | [(_ & _ & _ & H) | (Hunits & Hlen & Hrest)]]];
    try congruence.
  destruct Hrest as [[_ H] | [(_ & _ & H) | (Hh & Hlow & _)]]; try congruence.
  repeat split; [done | lia | lia | |].
  - intros [Hdot | Hhyp]; [| done].
    destruct name as [|c name]; [done |]. injection Hdot as ->.
    apply Forall_cons in Hunits as [Hc _]. unfold allowed_unit in Hc. lia.
  - intros Hres. apply reserved_includes in Hres.
    apply reserved_without_dot in Hres; done.
Qed.

Lemma validateProjectName_returns_valid_witness : valid (js "blog_api-2").
Proof.
  apply (validateProjectName_returns_valid (js "blog_api-2")).
  vm_compute. reflexivity.
Defined.

(** X2: the first three checks take precedence in their order.  The
    empty-name error is raised exactly for the names of white space only
    (the empty name among them), however long; the length error exactly
    for the names over 214 units that are not white space only, whatever
    their characters; the character error exactly for the names of at
    most 214 units with a unit outside letters, digits, '-' and '_'. *)
Theorem validateProjectName_error_order (name : jsstring) :
  let white := Forall (λ c, is_white_space c = true) name in
  (validateProjectName name = Throws ErrEmptyName ↔ white)
  ∧ (validateProjectName name = Throws ErrNameTooLong
     ↔ ¬ white ∧ (214 < length name)%nat)
  ∧ (validateProjectName name = Throws ErrInvalidCharacters
     ↔ ¬ white ∧ (length name ≤ 214)%nat ∧ ¬ Forall allowed_unit name).
Proof.
  cbv zeta.
  assert (Hw : Forall allowed_unit name → (1 ≤ length name)%nat →
               ¬ Forall (λ c, is_white_space c = true) name).
  { intros Hunits Hlen Hwhite. destruct name as [|c name]; [simpl in Hlen; lia |].
    apply Forall_cons in Hunits as [Hc _], Hwhite as [Hs _].
    apply allowed_not_white in Hc. simpl in Hs. congruence. }
  pose proof (validateProjectName_cases name) as Hcases. cbv zeta in Hcases.
  destruct Hcases
    as [[H1 H] | [(H1 & H2 & H) | [(H1 & H2 & H3 & H)
        | (H1 & H2 & [[H3 H] | [(H3 & H4 & H) | (H3 & H4 & H)]])]]];
    rewrite H; split_and!; split; try done; try naive_solver lia.
Qed.

(** X3: the error about a leading dot or hyphen is raised for a leading
    hyphen alone, on names that passed the checks before it.  A name that
    starts with a dot never gets it: it is rejected by the length check or
    by the check of the characters. *)
Theorem leading_error_only_for_hyphen (name : jsstring) :
  (validateProjectName name = Throws ErrLeadingDotOrHyphen
   ↔ Forall allowed_unit name ∧ (length name ≤ 214)%nat ∧ head name = Some 0x2D)
  ∧ (head name = Some 0x2E →
     validateProjectName name = Throws ErrNameTooLong
     ∨ validateProjectName name = Throws ErrInvalidCharacters).
Proof.
  assert (Hdot : head name = Some 0x2E → ¬ Forall allowed_unit name).
  { intros Hh Hunits. destruct name as [|c name]; [done |]. injection Hh as ->.
    apply Forall_cons in Hunits as [Hc _]. unfold allowed_unit in Hc. lia. }
  assert (Hhead : head name = Some 0x2E ∨ head name = Some 0x2D →
                  ¬ Forall (λ c, is_white_space c = true) name).
  { intros Hh Hwhite. destruct name as [|c name]; [by destruct Hh |].
    apply Forall_cons in Hwhite as [Hs _]. simpl in Hs, Hh.
    rewrite printable_not_white in Hs; [done |]. destruct Hh as [[= ->] | [= ->]]; lia. }
  pose proof (validateProjectName_cases name) as Hcases. cbv zeta in Hcases.
  destruct Hcases
    as [[H1 H] | [(H1 & H2 & H) | [(H1 & H2 & H3 & H)
        | (H1 & H2 & [[H3 H] | [(H3 & H4 & H) | (H3 & H4 & H)]])]]];
    rewrite H; (split; [split |]); try done; try naive_solver lia.
Qed.

Lemma validateProjectName_error_order_witness :
  validateProjectName (js "   ") = Throws ErrEmptyName.
Proof.
  apply (proj1 (validateProjectName_error_order (js "   "))).
  eval_js. by repeat constructor.
Defined.

Lemma leading_error_only_for_hyphen_witness :
  validateProjectName (js ".env") = Throws ErrNameTooLong
  ∨ validateProjectName (js ".env") = Throws ErrInvalidCharacters.
Proof.
  apply (proj2 (leading_error_only_for_hyphen (js ".env"))). reflexivity.
Defined.

End ValidationOrder.

(** ** A validated name as a path *)

Section ValidatedPath.

Import JsString NameRules.

Lemma split_slash_none (cur s : jsstring) :
  Forall (λ c, c ≠ 0x2F) s → split_slash cur s = [cur ++ s].
Proof.
  revert cur. induction s as [|c s IH]; intros cur Hs; simpl.
  - by rewrite app_nil_r.
  - apply Forall_cons in Hs as [Hc Hs].
    destruct (N.eqb_spec c 0x2F) as [-> | _]; [done |].
    rewrite IH by done. by rewrite <- app_assoc.
Qed.

(** A name of letters, digits, '-' and '_' is one plain path segment. *)
Lemma join_allowed (base : path) (name : jsstring) :
  name ≠ [] → Forall allowed_unit name →
  NodePath.join base name
  = {| segments := base ++ [name]; trailing_slash := false |}.
Proof.
  intros Hne Hunits.
  assert (Hnot : ∀ c, c ∈ name → c ≠ 0x2F ∧ c ≠ 0x2E).
  { intros c Hc. rewrite Forall_forall in Hunits. specialize (Hunits c Hc).
    unfold allowed_unit in Hunits. lia. }
  unfold NodePath.join. f_equal.
  - rewrite split_slash_none.
    2:{ apply Forall_forall. intros c Hc. by apply Hnot. }
    simpl. unfold normalize_step.
    rewrite bool_decide_false by done.
    rewrite bool_decide_false.
    2:{ intros ->. by destruct (Hnot 0x2E) as [_ ?]; [repeat constructor |]. }
    rewrite bool_decide_false; [done |].
    intros ->. by destruct (Hnot 0x2E) as [_ ?]; [repeat constructor |].
  - destruct (last name) as [c|] eqn:Hlast; [| done].
    apply N.eqb_neq. apply Hnot. apply last_Some in Hlast as [l' ->].
    apply elem_of_app. right. constructor.
Qed.

(** X4: a name that [validateProjectName] lets through names a direct
    child of the working directory: [path.join(cwd, name)] is the working
    directory with the name as one more segment, without a separator at
    the end; no validated name leads above or beside it. *)
Theorem validated_name_is_child (base : path) (name : jsstring) :
  validateProjectName name = Returns tt →
  NodePath.join base name
  = {| segments := base ++ [name]; trailing_slash := false |}.
Proof.
  intros Hret. apply validateProjectName_returns in Hret
    as (Hne & _ & _ & [_ Hunits]%test_allowed & _).
  by apply join_allowed.
Qed.

Lemma validated_name_is_child_witness :
  NodePath.join Scenario.work (js "my-app")
  = {| segments := Scenario.work ++ [js "my-app"]; trailing_slash := false |}.
Proof.
  apply (validated_name_is_child Scenario.work (js "my-app")).
  vm_compute. reflexivity.
Defined.

End ValidatedPath.

(** ** The name prompt of the command line against validateProjectName *)

Section PromptClaims.

Import JsString NameRules.

Lemma elem_of_cli_class_members (m : N) :
  m ∈ Cli.class_members ↔ allowed_unit m.
Proof.
  unfold Cli.class_members, Cli.class_ranges, allowed_unit.
  rewrite list_elem_of_bind. split.
  - intros (r & Hm & Hr).
    repeat (apply elem_of_cons in Hr as [-> | Hr]);
      [apply elem_of_range_members in Hm; lia .. | by apply elem_of_nil in Hr].
  - intros [H | [H | [H | [H | H]]]].
    + exists (0x41, 0x5A). split; [apply elem_of_range_members; lia | repeat constructor].
    + exists (0x61, 0x7A). split; [apply elem_of_range_members; lia | repeat constructor].
    + exists (0x30, 0x39). split; [apply elem_of_range_members; lia | repeat constructor].
    + exists (0x2D, 0x2D). split; [apply elem_of_range_members; lia | repeat constructor].
    + exists (0x5F, 0x5F). split; [apply elem_of_range_members; lia | repeat constructor].
Qed.

Lemma cli_test_allowed (s : jsstring) :
  Cli.test s = true ↔ s ≠ [] ∧ Forall allowed_unit s.
Proof.
  assert (Hclass : ∀ c, Cli.class_matches c = true ↔ allowed_unit c).
  { intros c. unfold Cli.class_matches. rewrite existsb_exists. split.
    - intros (m & Hm & ->%N.eqb_eq). by apply elem_of_cli_class_members, list_elem_of_In.
    - intros Hc. exists c. split; [| by apply N.eqb_eq].
      by apply list_elem_of_In, elem_of_cli_class_members. }
  destruct s as [|c s]; [simpl; split; [done | by intros [? _]] |].
  unfold Cli.test. rewrite forallb_forall, Forall_forall. split.
  - intros H. split; [done |]. intros x Hx.
    by apply Hclass, H, list_elem_of_In.
  - intros [_ H] x Hx. by apply Hclass, H, list_elem_of_In.
Qed.

(** What the prompt accepts. *)
Lemma cli_validate_accepted (input : jsstring) :
  Cli.validate input = Cli.Accepted
  ↔ Forall allowed_unit input ∧ (1 ≤ length input ≤ 50)%nat.
Proof.
  unfold Cli.validate. split.
  - destruct (bool_decide_reflect (trim input = [])) as [_ | Htrim]; [done |].
    destruct (Nat.ltb_spec 50 (length input)); [done |].
    destruct (Cli.test input) eqn:Htest; [| done].
    apply cli_test_allowed in Htest as [Hne Hunits]. intros _.
    split; [done |]. destruct input; [done | simpl in *; lia].
  - intros [Hunits Hlen].
    assert (Hne : input ≠ []) by (intros ->; simpl in Hlen; lia).
    rewrite bool_decide_false.
    2:{ rewrite trim_nil. intros Hwhite. destruct input as [|c input]; [done |].
        apply Forall_cons in Hunits as [Hc _], Hwhite as [Hs _].
        apply allowed_not_white in Hc. simpl in Hs. congruence. }
    destruct (Nat.ltb_spec 50 (length input)); [lia |].
    assert (Htest : Cli.test input = true) by by apply cli_test_allowed.
    by rewrite Htest.
Qed.

(** X5: the prompt is the weaker check.  A name the prompt accepts
    passes the first three checks of [validateProjectName]; it is then
    let through, or rejected for a leading hyphen, or rejected as the
    reserved name node_modules (in any case of letters): the prompt lets
    such names through to the generator. *)
Theorem prompt_accepted_then_validated (input : jsstring) :
  Cli.validate input = Cli.Accepted →
  validateProjectName input = Returns tt
  ∨ (head input = Some 0x2D
     ∧ validateProjectName input = Throws ErrLeadingDotOrHyphen)
  ∨ (toLowerCase input = js "node_modules"
     ∧ validateProjectName input = Throws (ErrReservedName input)).
Proof.
  intros [Hunits Hlen]%cli_validate_accepted.
  assert (Hnw : ¬ Forall (λ c, is_white_space c = true) input).
  { intros Hwhite. destruct input as [|c input]; [simpl in Hlen; lia |].
    apply Forall_cons in Hunits as [Hc _], Hwhite as [Hs _].
    apply allowed_not_white in Hc. simpl in Hs. congruence. }
  pose proof (validateProjectName_cases input) as Hcases. cbv zeta in Hcases.
  destruct Hcases
    as [[H1 H] | [(H1 & H2 & H) | [(H1 & H2 & H3 & H)
        | (H1 & H2 & [[H3 H] | [(H3 & H4 & H) | (H3 & H4 & H)]])]]];
    [done | lia | done | | |].
  - right. by left.
  - right. by right.
  - by left.
Qed.

Lemma prompt_accepted_then_validated_witness :
  validateProjectName (js "-api") = Returns tt
  ∨ (head (js "-api") = Some 0x2D
     ∧ validateProjectName (js "-api") = Throws ErrLeadingDotOrHyphen)
  ∨ (toLowerCase (js "-api") = js "node_modules"
     ∧ validateProjectName (js "-api") = Throws (ErrReservedName (js "-api"))).
Proof.
  apply (prompt_accepted_then_validated (js "-api")). vm_compute. reflexivity.
Defined.

(** X6: in the other direction the prompt only adds its bound of 50: a
    name [validateProjectName] lets through is accepted by the prompt
    exactly when it has at most 50 units (50 itself is accepted, whatever
    the message says). *)
Theorem validated_then_prompt_accepts (input : jsstring) :
  validateProjectName input = Returns tt →
  (Cli.validate input = Cli.Accepted ↔ (length input ≤ 50)%nat)
  ∧ ((50 < length input)%nat → Cli.validate input = Cli.NameOver50).
Proof.
  intros Hret. apply validateProjectName_returns in Hret
    as (Hne & Htrim & Hlen & [_ Hunits]%test_allowed & _).
  split.
  - rewrite cli_validate_accepted. split; [by intros [_ [_ ?]] |].
    intros H50. split; [done |]. destruct input; [done | simpl in *; lia].
  - intros Hlong. unfold Cli.validate.
    rewrite bool_decide_false by done.
    by destruct (Nat.ltb_spec 50 (length input)); [| lia].
Qed.

Lemma validated_then_prompt_accepts_witness :
  Cli.validate (replicate 50 0x61) = Cli.Accepted
  ∧ Cli.validate (replicate 51 0x61) = Cli.NameOver50.
Proof.
  split.
  - apply (proj1 (validated_then_prompt_accepts (replicate 50 0x61)
                    ltac:(vm_compute; reflexivity))).
    vm_compute. lia.
  - apply (proj2 (validated_then_prompt_accepts (replicate 51 0x61)
                    ltac:(vm_compute; reflexivity))).
    vm_compute. lia.
Defined.

End PromptClaims.

(** ** What generateProject touches *)

Section Containment.

Import Tree TreeFacts NameRules.

Lemma mkdirp_outside (base seen p : path) (todo : list jsstring) (d : tree) :
  ¬ base `prefix_of` p → (mkdirp (base ++ seen) todo d).1 !! p = d !! p.
Proof.
  intros Hp. revert seen d. induction todo as [|s todo IH]; intros seen d; simpl.
  - destruct (d !! (base ++ seen)) as [[|c]|]; simpl; [done | done |].
    by apply outside_insert.
  - destruct (d !! (base ++ seen)) as [[|c]|]; simpl.
    + rewrite <- app_assoc. apply IH.
    + done.
    + rewrite <- app_assoc, IH. by apply outside_insert.
Qed.

Lemma write_outside (base q p : path) (b : bool) (c : payload) (d : tree) :
  ¬ base `prefix_of` p →
  (write {| segments := base ++ q; trailing_slash := b |} c d).1 !! p = d !! p.
Proof.
  intros Hp. unfold write. simpl.
  destruct (base ++ q) as [|x l] eqn:Hk; [done |]. rewrite <- Hk.
  repeat case_match; simpl; try done; by apply outside_insert.
Qed.

(** One call of a template changes nothing outside the project
    directory, whether it runs or fails. *)
Lemma run_op_outside (base p : path) (b : bool) (op : template_op) (w : world) :
  Relative.stays_below op = true → chain (disk w) base →
  ¬ base `prefix_of` p →
  disk (Templates.run_op {| segments := base; trailing_slash := b |} op w).2 !! p
  = disk w !! p.
Proof.
  intros Hbelow Hchain Hp.
  destruct op as [rel | rel c | rel c]; simpl in *;
    rewrite (join_below base rel Hbelow);
    unfold Fs.ensureDir, Fs.writeJson, Fs.writeFile;
    (destruct (next_call_runs_dec w) as [Hruns | [e He]];
     [rewrite call_runs by done | by rewrite (call_fails _ _ _ e)]).
  - cbn [segments]. rewrite mkdirp_below by done.
    pose proof (mkdirp_outside base [] p (segments (NodePath.join [] (js rel)))
                  (disk w) Hp) as Hout.
    rewrite app_nil_r in Hout.
    by destruct (mkdirp base _ (disk w)) as [d' [e|]].
  - pose proof (write_outside base (segments (NodePath.join [] (js rel))) p
                  (trailing_slash (NodePath.join [] (js rel))) c (disk w) Hp) as Hout.
    by destruct (write _ c (disk w)) as [d' [e|]].
  - pose proof (write_outside base (segments (NodePath.join [] (js rel))) p
                  (trailing_slash (NodePath.join [] (js rel))) c (disk w) Hp) as Hout.
    by destruct (write _ c (disk w)) as [d' [e|]].
Qed.

Lemma run_outside (base p : path) (b : bool) (ops : list template_op) (w : world) :
  forallb Relative.stays_below ops = true → chain (disk w) base →
  ¬ base `prefix_of` p →
  disk (Templates.run {| segments := base; trailing_slash := b |} ops w).2 !! p
  = disk w !! p.
Proof.
  intros Hbelow Hchain Hp. revert w Hbelow Hchain.
  induction ops as [|op ops IH]; intros w Hbelow Hchain; simpl; [done |].
  simpl in Hbelow. apply andb_true_iff in Hbelow as [Hop Hops].
  pose proof (run_op_outside base p b op w Hop Hchain Hp) as Hout.
  destruct (run_op_facts {| segments := base; trailing_slash := b |} op w)
    as (_ & Hkeep & _).
  unfold mbind, M_bind, bind.
  destruct (Templates.run_op _ op w) as [[[]|e] w1]; simpl in *; [| done].
  rewrite IH; [done | done |]. by eapply chain_keeps.
Qed.

(** No literal of the five templates leads out of the project directory. *)
Lemma calls_stay_below (t : template_kind) (name : jsstring) :
  forallb Relative.stays_below (Templates.calls t name) = true.
Proof. destruct t; vm_compute; reflexivity. Qed.

Lemma chain_child (d : tree) (p : path) (s : jsstring) :
  chain d p → d !! (p ++ [s]) = Some Dir → chain d (p ++ [s]).
Proof. intros Hc Hs q [-> | Hq]%prefix_snoc_cases; [done | by apply Hc]. Qed.

(** Steps 4 and 5 on a child of a directory: nothing changes outside the
    child, and either nothing changes at all or the child is a directory
    afterward. *)
Lemma create_and_generate_disk (v : js_value) (base : path) (s name : jsstring)
    (b : bool) (w : world) :
  chain (disk w) base →
  let target := {| segments := base ++ [s]; trailing_slash := b |} in
  let r := (Fs.ensureDir target;; call_generate v target name) w in
  (∀ p, ¬ (base ++ [s]) `prefix_of` p → disk r.2 !! p = disk w !! p)
  ∧ (disk r.2 = disk w ∨ disk r.2 !! (base ++ [s]) = Some Dir).
Proof.
  intros Hchain target r. subst r. unfold mbind, M_bind, bind, Fs.ensureDir.
  destruct (next_call_runs_dec w) as [Hruns | [e He]].
  2:{ rewrite (call_fails _ _ _ e) by done. simpl. split; [done | by left]. }
  rewrite call_runs by done. cbn [segments target].
  rewrite mkdirp_below by done. cbn [mkdirp].
  rewrite (Hchain base) by done.
  destruct (disk w !! (base ++ [s])) as [[|c]|] eqn:Hs; cbn [fst snd];
    [| split; [done | by left] |].
  - set (w1 := {| cwd := cwd w; disk := disk w; faults := tail (faults w);
                  trace := trace w ++ [EvEnsureDir target true] |}).
    assert (Hc1 : chain (disk w1) (base ++ [s])) by by apply chain_child.
    destruct v as [|t|key]; simpl; [split; [done | by left] | |
                                    split; [done | by left]].
    unfold Templates.generate. split.
    + intros p Hp.
      exact (run_outside (base ++ [s]) p b _ w1 (calls_stay_below t name) Hc1 Hp).
    + right. destruct (run_facts target (Templates.calls t name) w1)
        as (_ & Hkeep & _). by apply Hkeep.
  - set (w1 := {| cwd := cwd w; disk := <[base ++ [s] := Dir]> (disk w);
                  faults := tail (faults w);
                  trace := trace w ++ [EvEnsureDir target true] |}).
    assert (Hc1 : chain (disk w1) (base ++ [s])) by by apply chain_snoc.
    assert (Hout1 : ∀ p, ¬ (base ++ [s]) `prefix_of` p →
                         disk w1 !! p = disk w !! p).
    { intros p Hp. simpl. apply lookup_insert_ne. intros <-. by apply Hp. }
    assert (Hdir1 : disk w1 !! (base ++ [s]) = Some Dir) by apply lookup_insert_eq.
    destruct v as [|t|key]; simpl; [split; [done | by right] | |
                                    split; [done | by right]].
    unfold Templates.generate. split.
    + intros p Hp. etrans; [| by apply Hout1].
      exact (run_outside (base ++ [s]) p b _ w1 (calls_stay_below t name) Hc1 Hp).
    + right. destruct (run_facts target (Templates.calls t name) w1)
        as (_ & Hkeep & _). by apply Hkeep.
Qed.

(** The [try] block: nothing changes outside the target path, and either
    nothing changes at all or the name was let through and its directory
    is there. *)
Lemma generateProject_try_disk (name kind : jsstring) (w : world) :
  chain (disk w) (cwd w) →
  let w1 := (generateProject_try name kind w).2 in
  (∀ p, ¬ segments (NodePath.join (cwd w) name) `prefix_of` p →
        disk w1 !! p = disk w !! p)
  ∧ (disk w1 = disk w
     ∨ (validateProjectName name = Returns tt
        ∧ disk w1 !! (cwd w ++ [name]) = Some Dir)).
Proof.
  intros Hchain w1. subst w1. rewrite generateProject_try_eq.
  destruct (validateProjectName name) as [[]|e] eqn:Hval;
    [| split; [done | by left]].
  pose proof Hval as (Hne & _ & _ & [_ Hunits]%test_allowed & _)%validateProjectName_returns.
  rewrite (join_allowed (cwd w) name Hne Hunits). cbv zeta.
  destruct (present (disk w) _); [split; [done | by left] |].
  destruct (falsy (get_template kind)); [split; [done | by left] |].
  match goal with
  | |- context [(Fs.ensureDir ?t;; call_generate ?v ?t ?n) ?w2] =>
      destruct (create_and_generate_disk v (cwd w) name n false w2 Hchain)
        as [Hout Hin]
  end.
  split; [exact Hout |]. destruct Hin as [Hin | Hin]; [by left | right; by split].
Qed.

(** X7: whatever the name, the template and the failures of the
    environment, a call of [generateProject] in a working directory that
    exists changes nothing outside [path.join(cwd, name)]: every path
    that is not that path or below it is afterward as it was. *)
Theorem generateProject_touches_only_target (name kind : jsstring) (w : world)
    (p : path) :
  chain (disk w) (cwd w) →
  ¬ segments (NodePath.join (cwd w) name) `prefix_of` p →
  disk (generateProject name kind w).2 !! p = disk w !! p.
Proof.
  intros Hchain Hp.
  destruct (generateProject_try_disk name kind w Hchain) as [Hout _].
  pose proof (generateProject_try_cwd name kind w) as Hcwd.
  unfold generateProject, try_catch.
  destruct (generateProject_try name kind w) as [[[]|e] w1]; simpl in *;
    [by apply Hout |].
  rewrite generateProject_catch_eq. cbv zeta. rewrite Hcwd.
  destruct (present (disk w1) _); [| by apply Hout].
  destruct (head (faults w1)) as [[f|]|]; simpl; [by apply Hout | |];
    (rewrite rmrf_lookup, decide_False by done; by apply Hout).
Qed.

Lemma generateProject_touches_only_target_witness :
  disk (generateProject (js "node_modules") (js "basic")
          Scenario.with_node_modules).2 !! (Scenario.work ++ [js "package.json"])
  = Some (File (Other 2)).
Proof.
  rewrite (generateProject_touches_only_target (js "node_modules") (js "basic")
             Scenario.with_node_modules (Scenario.work ++ [js "package.json"])).
  - vm_compute. reflexivity.
  - apply wf_chain; [apply wf_check_sound |]; vm_compute; reflexivity.
  - intros [k Hk]. vm_compute in Hk. discriminate Hk.
Defined.

End Containment.

(** ** Failing and calling again *)

Section FailureClaims.

Import Tree TreeFacts NameRules.

(** X8: a failed call leaves no trace on the disk.  In a well-formed
    tree whose working directory exists and whose target path does not,
    when [generateProject] throws (at whatever step, for whatever name and
    template) and the environment does not make the removal of the
    [catch] block fail, the tree afterward is the tree before the call. *)
Theorem failed_run_restores_disk (name kind : jsstring) (w : world) (e : error) :
  wf (disk w) →
  disk w !! cwd w = Some Dir →
  present (disk w) (NodePath.join (cwd w) name) = false →
  (generateProject name kind w).1 = Throws e →
  next_call_runs (generateProject_try name kind w).2 →
  disk (generateProject name kind w).2 = disk w.
Proof.
  intros Hwf Hcwd Habsent Hthrows Hruns.
  assert (Hchain : chain (disk w) (cwd w)) by by apply wf_chain.
  destruct (generateProject_try_disk name kind w Hchain) as [Hout Hin].
  pose proof (generateProject_try_cwd name kind w) as Hcwd1.
  revert Hthrows. unfold generateProject, try_catch.
  destruct (generateProject_try name kind w) as [[[]|e1] w1]; simpl in *; [done |].
  intros _. rewrite generateProject_catch_eq. cbv zeta. rewrite Hcwd1.
  destruct Hin as [Hsame | [Hval Hdir]].
  { rewrite Hsame, Habsent. done. }
  pose proof Hval as (Hne & _ & _ & [_ Hunits]%test_allowed & _)%validateProjectName_returns.
  rewrite (join_allowed (cwd w) name Hne Hunits) in *.
  unfold present in Habsent |- *. cbn [segments trailing_slash] in *.
  rewrite Hdir.
  assert (Hnone : disk w !! (cwd w ++ [name]) = None).
  { destruct (disk w !! (cwd w ++ [name])) as [[|c]|]; done. }
  unfold next_call_runs in Hruns.
  assert (Hgoal : rmrf (cwd w ++ [name]) (disk w1) = disk w).
  { apply map_eq. intros p. rewrite rmrf_lookup.
    destruct (decide ((cwd w ++ [name]) `prefix_of` p)) as [[q ->] | Hp].
    - symmetry. by apply wf_absent.
    - apply Hout.
      pose proof (join_allowed (cwd w) name Hne Hunits) as Hj.
      apply (f_equal segments) in Hj. simpl in Hj. by rewrite Hj. }
  destruct (head (faults w1)) as [[f|]|]; [done | |]; simpl; exact Hgoal.
Qed.

Lemma failed_run_restores_disk_witness :
  disk (generateProject (js "broken") (js "ecom") Scenario.disk_fills_up).2
  = Scenario.empty_tree.
Proof.
  apply (failed_run_restores_disk (js "broken") (js "ecom")
           Scenario.disk_fills_up (FsError ENOSPC)).
  - apply wf_check_sound. vm_compute. reflexivity.
  - vm_compute. reflexivity.
  - vm_compute. reflexivity.
  - vm_compute. reflexivity.
  - vm_compute. exact I.
Defined.

Lemma call_throws_fs (ev : bool → event) (run : tree → tree * option errno)
    (w : world) (e : error) :
  (Fs.call ev run w).1 = Throws e → ∃ c, e = FsError c.
Proof.
  unfold Fs.call. destruct (head (faults w)) as [[f|]|];
    [intros [= <-]; by eexists | |];
    (destruct (run (disk w)) as [d [c|]]; [intros [= <-]; by eexists | done]).
Qed.

(** A template throws nothing but what the file system raised. *)
Lemma run_throws_fs (p : jpath) (ops : list template_op) (w : world) (e : error) :
  (Templates.run p ops w).1 = Throws e → ∃ c, e = FsError c.
Proof.
  revert w. induction ops as [|op ops IH]; intros w; [done |].
  cbn [Templates.run]. unfold mbind, M_bind, bind.
  destruct (Templates.run_op p op w) as [[[]|e1] w1] eqn:Hop.
  - apply IH.
  - intros [= <-]. apply (f_equal fst) in Hop. cbn [fst] in Hop.
    destruct op as [rel | rel c | rel c]; by apply call_throws_fs in Hop.
Qed.

(** What steps 4 and 5 can throw. *)
Lemma create_and_generate_throws (v : js_value) (p : jpath) (name : jsstring)
    (w : world) (e : error) :
  ((Fs.ensureDir p;; call_generate v p name) w).1 = Throws e →
  (∃ c, e = FsError c) ∨ (e = TypeErrorNotAFunction ∧ ∀ t, v ≠ VTemplate t).
Proof.
  unfold mbind, M_bind, bind.
  destruct (Fs.ensureDir p w) as [[[]|e1] w1] eqn:Hmk.
  - destruct v as [|t|key]; cbn [call_generate]; unfold throw.
    + intros [= <-]. by right.
    + intros H. left. by apply run_throws_fs in H.
    + intros [= <-]. by right.
  - intros [= <-]. left. apply (f_equal fst) in Hmk. by apply call_throws_fs in Hmk.
Qed.

(** What a successful call leaves behind for the next one. *)
Lemma success_facts (name kind : jsstring) (w : world) :
  (generateProject name kind w).1 = Returns tt →
  validateProjectName name = Returns tt
  ∧ present (disk w) (NodePath.join (cwd w) name) = false
  ∧ (∃ t, get_template kind = VTemplate t)
  ∧ (generateProject name kind w).2 = (generateProject_try name kind w).2
  ∧ cwd (generateProject name kind w).2 = cwd w
  ∧ disk (generateProject name kind w).2
      !! segments (NodePath.join (cwd w) name) = Some Dir.
Proof.
  intros Hok.
  assert (Htry : (generateProject_try name kind w).1 = Returns tt)
    by by rewrite <- generateProject_result.
  assert (Hsame : (generateProject name kind w).2 = (generateProject_try name kind w).2).
  { unfold generateProject, try_catch.
    by destruct (generateProject_try name kind w) as [[[]|e] w1]. }
  rewrite Hsame. pose proof (generateProject_try_cwd name kind w) as Hcwd.
  pose proof (generateProject_try_eq name kind w) as Heq. cbv zeta in Heq.
  destruct (validateProjectName name) as [[]|e];
    [| by rewrite Heq in Htry].
  destruct (present (disk w) (NodePath.join (cwd w) name));
    [by rewrite Heq in Htry |].
  destruct (get_template kind) as [|t|key]; cbn [falsy negb] in Heq.
  - by rewrite Heq in Htry.
  - split_and!; [done | done | by eexists | done | done |].
    match type of Heq with
    | _ = (Fs.ensureDir ?p;; call_generate ?v ?p ?n) ?w0 =>
        destruct (create_and_generate_facts v p n w0) as (_ & _ & _ & Hdir)
    end.
    cbv zeta in Hdir. rewrite <- Heq in Hdir. by apply Hdir.
  - exfalso. rewrite Heq in Htry.
    apply (f_equal (λ c, match c with Returns _ => true | Throws _ => false end)) in Htry.
    revert Htry. unfold mbind, M_bind, bind.
    destruct (Fs.ensureDir _ _) as [[[]|e] w1]; by cbn.
Qed.

(** X9: the second call does more than fail.  After a successful call, a
    second call with the same name (whatever its template) removes the
    project that the first call generated, unless the environment makes
    that removal fail: the directory and all below it are gone when the
    DirectoryExistsError reaches the caller. *)
Theorem second_call_removes_project (name kind kind' : jsstring) (w : world)
    (q : path) :
  (generateProject name kind w).1 = Returns tt →
  next_call_runs (generateProject name kind w).2 →
  disk (generateProject name kind' (generateProject name kind w).2).2
    !! (cwd w ++ [name] ++ q) = None.
Proof.
  intros Hok Hruns.
  destruct (success_facts name kind w Hok) as (Hval & _ & _ & _ & Hcwd & Hdir).
  pose proof Hval as (Hne & _ & _ & [_ Hunits]%test_allowed & _)%validateProjectName_returns.
  rewrite (join_allowed (cwd w) name Hne Hunits) in Hdir. cbn [segments] in Hdir.
  rewrite (app_assoc (cwd w) [name] q).
  set (w' := (generateProject name kind w).2) in *.
  unfold generateProject at 1, try_catch.
  rewrite generateProject_try_eq, Hval. cbv zeta.
  rewrite Hcwd, (join_allowed (cwd w) name Hne Hunits).
  unfold present at 1. cbn [segments]. rewrite Hdir.
  rewrite generateProject_catch_eq. unfold record. cbn [cwd disk faults trace].
  rewrite Hcwd, (join_allowed (cwd w) name Hne Hunits).
  unfold present. cbn [segments]. rewrite Hdir.
  unfold next_call_runs in Hruns.
  destruct (head (faults w')) as [[f|]|]; [done | |]; cbn [fst snd disk];
    apply rmrf_gone.
Qed.

Lemma second_call_removes_project_witness :
  disk (generateProject (js "my-app") (js "blog")
          (generateProject (js "my-app") (js "basic") Scenario.empty_dir).2).2
    !! (Scenario.work ++ [js "my-app"] ++ [js "package.json"]) = None.
Proof.
  apply (second_call_removes_project (js "my-app") (js "basic") (js "blog")
           Scenario.empty_dir [js "package.json"]).
  - vm_compute. reflexivity.
  - vm_compute. exact I.
Defined.

(** X10: the precedence of the errors.  An invalid name is reported
    whatever the disk and the template; for a valid name an existing
    target is reported whatever the template; an unknown template is
    reported only for a valid name with a free target; and a call
    succeeds only for a valid name, a free target and a key of the
    registry. *)
Theorem generateProject_error_precedence (name kind : jsstring) (w : world) :
  let target := NodePath.join (cwd w) name in
  (∀ e, validateProjectName name = Throws e →
        (generateProject name kind w).1 = Throws e)
  ∧ (validateProjectName name = Returns tt → present (disk w) target = true →
     (generateProject name kind w).1 = Throws (ErrDirectoryExists name))
  ∧ ((generateProject name kind w).1 = Throws (ErrTemplateNotFound kind) →
     validateProjectName name = Returns tt ∧ present (disk w) target = false
     ∧ get_template kind = VUndefined)
  ∧ ((generateProject name kind w).1 = Returns tt →
     validateProjectName name = Returns tt ∧ present (disk w) target = false
     ∧ ∃ t, get_template kind = VTemplate t).
Proof.
  intros target.
  pose proof (generateProject_try_eq name kind w) as Heq. cbv zeta in Heq.
  fold target in Heq. rewrite generateProject_result. split_and!.
  - intros e Hval. by rewrite Heq, Hval.
  - intros Hval Hpres. by rewrite Heq, Hval, Hpres.
  - intros Hthrows. rewrite Heq in Hthrows.
    destruct (validateProjectName name) as [[]|e] eqn:Hval.
    2:{ injection Hthrows as ->.
        by pose proof (validateProjectName_throws_kind name _ Hval). }
    destruct (present (disk w) target); [done |].
    destruct (get_template kind) as [|t|key]; cbn [falsy negb] in Hthrows;
      [done | exfalso .. ].
    + by apply create_and_generate_throws in Hthrows as [[c ?] | [? _]].
    + by apply create_and_generate_throws in Hthrows as [[c ?] | [? _]].
  - intros Hret. rewrite <- generateProject_result in Hret.
    by destruct (success_facts name kind w Hret) as (? & ? & ? & _).
Qed.

Lemma generateProject_error_precedence_witness :
  (generateProject (js "node_modules") (js "no-such-template")
     Scenario.with_node_modules).1 = Throws (ErrReservedName (js "node_modules")).
Proof.
  apply (proj1 (generateProject_error_precedence (js "node_modules")
                  (js "no-such-template") Scenario.with_node_modules)).
  vm_compute. reflexivity.
Defined.

End FailureClaims.

(** ** The five templates and the menu of the command line *)

Section TemplateClaims.

Import Tree TreeFacts NameRules.

(** Every template runs through in an empty directory. *)
Lemma calls_run_in_empty (t : template_kind) (name : jsstring) :
  is_Some (Relative.run (Templates.calls t name) {[ [] := Dir ]}).
Proof.
  destruct t; apply (bool_decide_unpack (is_Some _)); vm_compute; exact I.
Qed.

(** X11: each of the five templates, for any validated name, in a
    working directory that has no entry of that name and on a file system
    that fails no call: [generateProject] succeeds, and afterward the
    project directory holds the manifest written from
    [packageJson(projectName)], the entry point that the manifest names
    as [main] (index.js for basic, server.js for the others), the README
    for that name, .env and .gitignore. *)
Theorem template_project_generated (name kind : jsstring) (t : template_kind)
    (w : world) :
  validateProjectName name = Returns tt →
  get_template kind = VTemplate t →
  wf (disk w) →
  disk w !! cwd w = Some Dir →
  disk w !! (cwd w ++ [name]) = None →
  reliable w →
  let r := generateProject name kind w in
  let project := cwd w ++ [name] in
  r.1 = Returns tt
  ∧ disk r.2 !! project = Some Dir
  ∧ disk r.2 !! (project ++ [js "package.json"]) = Some (File (PackageJson t name))
  ∧ (∃ c, disk r.2 !! (project ++ [js (pj_main (packageJson t name))])
          = Some (File c))
  ∧ disk r.2 !! (project ++ [js "README.md"]) = Some (File (ReadmeFile t name))
  ∧ (∃ c, disk r.2 !! (project ++ [js ".env"]) = Some (File c))
  ∧ (∃ c, disk r.2 !! (project ++ [js ".gitignore"]) = Some (File c)).
Proof.
  intros Hval Hget Hwf Hcwd Hfresh Hrel r project.
  pose proof Hval as (Hne & _ & _ & [_ Hunits]%test_allowed & _)%validateProjectName_returns.
  pose proof (join_allowed (cwd w) name Hne Hunits) as Hjoin. fold project in Hjoin.
  assert (Hchain : chain (disk w) (cwd w)) by by apply wf_chain.
  assert (∃ w5, r = (Returns tt, w5)
            ∧ (∀ q, disk w5 !! (project ++ q) =
                      Relative.run (Templates.calls t name) {[ [] := Dir ]}
                        ≫= (λ t', t' !! q)))
    as (w5 & -> & Hbelow).
  { subst r. unfold generateProject, try_catch.
    rewrite generateProject_try_eq, Hval, Hjoin. cbv zeta.
    unfold present. cbn [segments]. fold project in Hfresh. rewrite Hfresh, Hget.
    cbn [falsy negb].
    unfold mbind, M_bind, bind, Fs.ensureDir.
    rewrite call_runs by (by apply reliable_next).
    unfold record. cbn [cwd disk faults trace segments].
    unfold project at 1. rewrite mkdirp_below by done.
    cbn [mkdirp]. rewrite Hcwd. fold project. rewrite Hfresh.
    cbn [call_generate]. unfold Templates.generate.
    match goal with
    | |- context [Templates.run ?p ?ops ?w3] =>
        destruct (run_sim project false ops w3 {[ [] := Dir ]})
          as (Hret & Hbelow & _)
    end.
    - apply calls_stay_below.
    - by apply chain_snoc.
    - by apply fresh_subtree.
    - by apply reliable_tail.
    - apply calls_run_in_empty.
    - destruct (Templates.run _ _ _) as [[[]|e] w5];
        cbn [fst snd] in Hret, Hbelow |- *; [| done].
      by exists w5. }
  cbn [fst snd]. split; [done |].
  split; [rewrite <- (app_nil_r project), Hbelow; destruct t; vm_compute; reflexivity |].
  split; [rewrite Hbelow; destruct t; vm_compute; reflexivity |].
  split; [destruct t; eexists; rewrite Hbelow; vm_compute; reflexivity |].
  split; [rewrite Hbelow; destruct t; vm_compute; reflexivity |].
  split; destruct t; eexists; rewrite Hbelow; vm_compute; reflexivity.
Qed.

Lemma template_project_generated_witness :
  (generateProject (js "shop") (js "ecom") Scenario.empty_dir).1 = Returns tt
  ∧ disk (generateProject (js "shop") (js "ecom") Scenario.empty_dir).2
      !! ((Scenario.work ++ [js "shop"]) ++ [js "package.json"])
    = Some (File (PackageJson ecom (js "shop"))).
Proof.
  destruct (template_project_generated (js "shop") (js "ecom") ecom
              Scenario.empty_dir) as (Hret & _ & Hmanifest & _).
  - vm_compute. reflexivity.
  - vm_compute. reflexivity.
  - apply wf_check_sound. vm_compute. reflexivity.
  - vm_compute. reflexivity.
  - vm_compute. reflexivity.
  - constructor.
  - split; [exact Hret | exact Hmanifest].
Defined.

(** The values of the template menu are exactly the keys of the
    registry. *)
Lemma menu_choice_is_registered (kind : jsstring) :
  kind ∈ Cli.templateChoices ↔ ∃ t, get_template kind = VTemplate t.
Proof.
  split.
  - unfold Cli.templateChoices. intros H.
    repeat (apply elem_of_cons in H as [-> | H]);
      [eexists; vm_compute; reflexivity .. | by apply elem_of_nil in H].
  - intros [t Ht]. by apply get_template_own in Ht.
Qed.

(** X12: with a template chosen from the menu, [generateProject] never
    fails on the template: what it throws is an error of the name, of the
    existing directory or of the file system, not the unknown-template
    error and not a TypeError of the call of [generate]. *)
Theorem menu_choice_never_unknown (name kind : jsstring) (w : world) (e : error) :
  kind ∈ Cli.templateChoices →
  (generateProject name kind w).1 = Throws e →
  kind_of e = InvalidNameError ∨ kind_of e = DirectoryExistsError
  ∨ kind_of e = IoError.
Proof.
  intros [t Ht]%menu_choice_is_registered.
  rewrite generateProject_result, generateProject_try_eq, Ht. cbv zeta.
  destruct (validateProjectName name) as [[]|e0] eqn:Hval.
  - destruct (present (disk w) _); [intros [= <-]; right; by left |].
    cbn [falsy negb].
    intros [[c ->] | [_ Hno]]%create_and_generate_throws.
    + right. by right.
    + by destruct (Hno t).
  - intros [= <-]. left. by eapply validateProjectName_throws_kind.
Qed.

Lemma menu_choice_never_unknown_witness :
  kind_of (FsError ENOSPC) = InvalidNameError
  ∨ kind_of (FsError ENOSPC) = DirectoryExistsError
  ∨ kind_of (FsError ENOSPC) = IoError.
Proof.
  apply (menu_choice_never_unknown (js "broken") (js "ecom")
           Scenario.disk_fills_up (FsError ENOSPC)).
  - unfold Cli.templateChoices. repeat constructor.
  - vm_compute. reflexivity.
Defined.

End TemplateClaims.
